(** * A 5x5 median filter with row-band partitioning (filter/medianFilter.go)

    Shallow embedding of the Go program and the properties of its core:
    the kernel [medianFilter], the getter closure [makeImmutableMatrix] and
    the banding and merge logic of [filter].

    Conventions of the embedding.
    - Go's [int] is modelled by [Z]: the embedding is that of the runs in
      which no [int] operation overflows.  The integers of the program are
      indices, lengths and loop counters of slices held in memory, and band
      bounds computed from them, so none does.
    - Go's [uint8] is modelled by [byte]; the conversions [int(..)] and
      [uint8(..)] are written out ([int], [uint8]).
    - A slice is a list.  Indexing out of range, [make] with a negative
      length and integer division by zero are run-time panics; they are
      values of the type [panic] and abort the run.
    - A run is a function from the trace of observable actions so far to an
      outcome and the extended trace.  Observable actions are the calls of
      the getter closure ([Read]) and the [go worker(..)] statements ([Go]).
    - Goroutines: a worker reads the shared getter, writes a matrix of its
      own and sends it once on a channel of its own, so the value received
      from a channel does not depend on the scheduling.  The trace is the
      one of the schedule in which each worker runs when the coordinator
      receives from its channel.
    - Go's [float64] is modelled by the primitive binary64 floats, every
      operation rounded to nearest even.  Go lets an implementation fuse a
      multiplication and an addition into one rounding; the sum of the
      luminance takes the choice as a parameter. *)

From Stdlib Require Import ZArith Lia QArith Qround.
From Stdlib Require Import Strings.Byte.
From Stdlib Require Import Floats.PrimFloat Floats.SpecFloat Floats.FloatOps.
From Stdlib Require Numbers.Cyclic.Int63.Uint63.
From stdpp Require Import base list list_numbers sorting.

Local Open Scope Z_scope.

(** ** Outcomes, traces and the monad of runs *)

Inductive panic : Set :=
  | IndexOutOfRange
  | MakesliceLenOutOfRange
  | IntegerDivideByZero
  | Deadlock.

Inductive outcome (A : Type) : Type :=
  | Return (a : A)
  | Panic (p : panic).
Arguments Return {A} a.
Arguments Panic {A} p.

Inductive event : Set :=
  | Read (y x : Z)
  | Go (startY endY startX endX : Z).

Abbreviation trace := (list event).

Definition M (A : Type) : Type := trace → outcome A * trace.

Global Instance outcome_ret : MRet outcome := λ A a, Return a.
Global Instance outcome_bind : MBind outcome := λ A B f o,
  match o with
  | Return a => f a
  | Panic p => Panic p
  end.

Global Instance M_ret : MRet M := λ A a tr, (Return a, tr).
Global Instance M_bind : MBind M := λ A B f m tr,
  match m tr with
  | (Return a, tr') => f a tr'
  | (Panic p, tr') => (Panic p, tr')
  end.

(** A computation without observable action. *)
Definition lift {A} (o : outcome A) : M A := λ tr, (o, tr).

(** [for _, i := range l { s = body(i, s) }] *)
Fixpoint forM {S : Type} (l : list Z) (body : Z → S → M S) (s : S) : M S :=
  match l with
  | [] => mret s
  | i :: l' => s' ← body i s; forM l' body s'
  end.

(** [for i := lo; i < hi; i++ { s = body(i, s) }] *)
Definition for_lt {S : Type} (lo hi : Z) (s : S) (body : Z → S → M S) : M S :=
  forM (seqZ lo (hi - lo)) body s.

(** [for i := lo; i <= hi; i++ { s = body(i, s) }] *)
Definition for_le {S : Type} (lo hi : Z) (s : S) (body : Z → S → M S) : M S :=
  forM (seqZ lo (hi + 1 - lo)) body s.

(** ** Slices *)

(** [make([]T, n)], filled with the zero value of [T]. *)
Definition make {A} (zero : A) (n : Z) : outcome (list A) :=
  if decide (n < 0) then Panic MakesliceLenOutOfRange
  else Return (replicate (Z.to_nat n) zero).

(** [l[i]] as an expression. *)
Definition index {A} (l : list A) (i : Z) : outcome A :=
  if decide (0 ≤ i) then
    match l !! Z.to_nat i with
    | Some a => Return a
    | None => Panic IndexOutOfRange
    end
  else Panic IndexOutOfRange.

(** [l[i] = a] *)
Definition store {A} (l : list A) (i : Z) (a : A) : outcome (list A) :=
  if decide (0 ≤ i < Z.of_nat (length l)) then Return (<[Z.to_nat i := a]> l)
  else Panic IndexOutOfRange.

(** [m[i][j] = a] *)
Definition store2 {A} (m : list (list A)) (i j : Z) (a : A) : outcome (list (list A)) :=
  row ← index m i;
  row' ← store row j a;
  store m i row'.

Definition len {A} (l : list A) : Z := Z.of_nat (length l).

(** [a / b] on [int]: truncated division, panics on a zero divisor. *)
Definition div (a b : Z) : outcome Z :=
  if decide (b = 0) then Panic IntegerDivideByZero else Return (Z.quot a b).

(** ** Samples *)

(** The 2D slices [[][]uint8]. *)
Abbreviation grid := (list (list byte)).

(** [int(b)] for [b : uint8] *)
Definition int (b : byte) : Z := Z.of_N (Byte.to_N b).

(** [uint8(z)] for [z : int]: the low eight bits *)
Definition uint8 (z : Z) : byte :=
  match Byte.of_N (Z.to_N (z mod 256)) with
  | Some b => b
  | None => x00
  end.

(** [sort.Ints]: the standard library sorts the slice in increasing order.
    The rearrangement of a list into increasing order is unique, so any
    correct sort stands for it; see [sort_Ints_sorted], [sort_Ints_perm] and
    [sort_Ints_unique]. *)
Definition sort_Ints (l : list Z) : list Z := merge_sort Z.le l.

(** ** The program *)

(** [makeMatrix] makes and returns a 2D slice with the given dimensions. *)
Definition makeMatrix (height width : Z) : M grid :=
  matrix ← lift (make ([] : list byte) height);
  for_lt 0 (len matrix) matrix (λ i matrix,
    row ← lift (make x00 width);
    lift (store matrix i row)).

(** The getter closures [func(y, x int) uint8]. *)
Definition getter := Z → Z → outcome byte.

(** [makeImmutableMatrix] wraps a 2D matrix in a getter closure. *)
Definition makeImmutableMatrix (matrix : grid) : getter :=
  λ y x, row ← index matrix y; index row x.

(** A call [data(k, l)] of a getter closure: observable. *)
Definition call (data : getter) (k l : Z) : M byte :=
  λ tr, (data k l, tr ++ [Read k l]).

(** [medianFilter] applies the filter between the given x and y bounds on
    the given closure and returns the section where it was applied. *)
Definition medianFilter (startY endY startX endX : Z) (data : getter) : M grid :=
  let height := endY - startY in
  let width := endX - startX in
  let radius := 2 in
  let midPoint := Z.quot (5 * 5 + 1) 2 in
  filteredMatrix ← makeMatrix height width;
  filterValues ← lift (make 0 (5 * 5));
  '(filteredMatrix, _) ←
    for_lt (radius + startY) (endY - radius) (filteredMatrix, filterValues)
      (λ i st,
        for_lt (radius + startX) (endX - radius) st
          (λ j '(filteredMatrix, filterValues),
            '(_, filterValues) ←
              for_le (i - radius) (i + radius) (0, filterValues)
                (λ k st,
                  for_le (j - radius) (j + radius) st
                    (λ l '(count, filterValues),
                      v ← call data k l;
                      filterValues ← lift (store filterValues count (int v));
                      mret (count + 1, filterValues)));
            let filterValues := sort_Ints filterValues in
            m ← lift (index filterValues midPoint);
            filteredMatrix ←
              lift (store2 filteredMatrix (i - startY) (j - startX) (uint8 m));
            mret (filteredMatrix, filterValues)));
  mret filteredMatrix.

(** [worker] applies the filter to its band; the value it sends on its
    channel is the value of this run. *)
Definition worker (startY endY startX endX : Z) (data : getter) : M grid :=
  medianFilter startY endY startX endX data.

(** The state of a channel of [resultChan]: the nil channel of a fresh
    slice, a channel made by [make(chan ..)], or a channel on which a started
    goroutine is going to send the value of [task]. *)
Inductive chan : Type :=
  | NilChan
  | Open
  | Sending (task : M grid).

(** [go worker(startY, endY, startX, endX, data, resultChan[t])] *)
Definition go_worker (startY endY startX endX : Z) (data : getter)
    (resultChan : list chan) (t : Z) : M (list chan) :=
  _ ← lift (index resultChan t);
  _ ← (λ tr, (Return (), tr ++ [Go startY endY startX endX])) : M ();
  lift (store resultChan t (Sending (worker startY endY startX endX data))).

(** [<-resultChan[t]]: each worker shares nothing but the read-only getter
    and sends once on a channel of its own, so the value received is the value
    of its task, whatever the scheduling.  Without a sender the receive blocks
    for ever and the run-time aborts the run (all goroutines are asleep). *)
Definition recv (resultChan : list chan) (t : Z) : M grid :=
  c ← lift (index resultChan t);
  match c with
  | Sending task => task
  | _ => lift (Panic Deadlock)
  end.

(** The bounds of band [t] (lines 139-143 of [filter]). *)
Definition band (height threads partitionSize t : Z) : Z * Z :=
  let startY := t * partitionSize in
  let endY := (t + 1) * partitionSize in
  let endY := if decide (t = threads - 1) then height else endY in
  (startY, endY).

(** [filter], from the dimensions and the getter of the decoded image to the
    matrix handed to the encoder (lines 123-162); decoding and encoding are
    outside the embedding. *)
Definition filter (height width : Z) (immutableData : getter) (threads : Z) : M grid :=
  if decide (threads = 1) then
    medianFilter 0 height 0 width immutableData
  else
    resultChan ← lift (make NilChan threads);
    partitionSize ← lift (div height threads);
    resultChan ←
      for_lt 0 threads resultChan (λ i resultChan, lift (store resultChan i Open));
    resultChan ←
      for_lt 0 threads resultChan (λ t resultChan,
        let '(startY, endY) := band height threads partitionSize t in
        go_worker startY endY 0 width immutableData resultChan t);
    newPixelData ← makeMatrix height width;
    for_lt 0 threads newPixelData (λ t newPixelData,
      partialResult ← recv resultChan t;
      let startY := t * partitionSize in
      for_lt startY (startY + len partialResult) newPixelData (λ i newPixelData,
        for_lt 0 width newPixelData (λ j newPixelData,
          row ← lift (index partialResult (i - startY));
          v ← lift (index row j);
          lift (store2 newPixelData i j v)))).

(** The bands of a run, in the order of dispatch. *)
Definition bands (height threads : Z) : list (Z * Z) :=
  band height threads (Z.quot height threads) <$> seqZ 0 threads.

(** [make([]T, 0, n)]: the empty slice, of capacity [n]; a negative capacity
    is a panic of [make] as well. *)
Definition make_cap {A} (n : Z) : outcome (list A) :=
  if decide (n < 0) then Panic MakesliceLenOutOfRange else Return [].

(** [flattenImage] takes a 2D slice and flattens it into a single 1D slice. *)
Definition flattenImage (image : grid) : M (list byte) :=
  let height := len image in
  row0 ← lift (index image 0);
  let width := len row0 in
  flattenedImage ← lift (make_cap (height * width));
  for_lt 0 height flattenedImage (λ i flattenedImage,
    row ← lift (index image i);
    mret (flattenedImage ++ row)).

(** The decoded image, as [getPixelData] uses it: [image.Rectangle] with its
    corners, and the [image.Image] interface with [Bounds()] and [At(x, y)],
    whose colour gives the four channels of [RGBA()]. *)
Record Point : Set := { X : Z; Y : Z }.

Record Rectangle : Set := { Min : Point; Max : Point }.

Definition Dx (r : Rectangle) : Z := X (Max r) - X (Min r).

Definition Dy (r : Rectangle) : Z := Y (Max r) - Y (Min r).

Record Color : Set := { RGBA : Z * Z * Z * Z }.

Record Image : Type := { Bounds : Rectangle; At : Z → Z → Color }.

Section luminance.
(** [uint8((0.299*float64(r) + 0.587*float64(g) + 0.114*float64(b)) / 256)],
    lines 79 and 80: a function of the three channels.  The loops do not
    depend on which one, so they take it as a variable; the function of the
    code is [luminance64] below. *)
Variable luminance : Z → Z → Z → byte.

(** [getPixelData] transfers an [image.Image] to a standard 2D slice. *)
Definition getPixelData (img : Image) : M grid :=
  let bounds := Bounds img in
  pixels ← makeMatrix (Dy bounds) (Dx bounds);
  let curr := 0 in
  '(pixels, _) ←
    for_lt (Y (Min bounds)) (Y (Max bounds)) (pixels, curr) (λ y st,
      for_lt (X (Min bounds)) (X (Max bounds)) st (λ x '(pixels, curr),
        let '(r, g, b, _) := RGBA (At img x y) in
        pixels ← lift (store2 pixels y x (luminance r g b));
        mret (pixels, curr + 1)));
  mret pixels.
End luminance.








(** [filter] from the decoded image to the pixels handed to the encoder
    (lines 117-165): the luminance matrix, its getter, the filtered matrix
    and its flattening.  Opening, decoding and encoding the files, and the
    allocation of the output image by [image.NewGray] (line 164), are
    outside the embedding. *)
Definition filter_image (luminance : Z → Z → Z → byte) (img : Image)
    (threads : Z) : M (list byte) :=
  let bounds := Bounds img in
  let height := Dy bounds in
  let width := Dx bounds in
  pixels ← getPixelData luminance img;
  let immutableData := makeImmutableMatrix pixels in
  newPixelData ← filter height width immutableData threads;
  flattenImage newPixelData.

(** ** Vocabulary of the properties *)

(** [sat E m Q]: a run of [m] that returns, returns a value in [Q]; a run
    that panics is excused by [E].  With [E := False] the run returns. *)
Definition sat {A} (E : Prop) (m : M A) (Q : A → Prop) : Prop :=
  ∀ tr, match fst (m tr) with Return a => Q a | Panic _ => E end.

(** [emits P m]: a run of [m] extends the trace, by actions in [P] only. *)
Definition emits {A} (P : event → Prop) (m : M A) : Prop :=
  ∀ tr, ∃ evs, snd (m tr) = tr ++ evs ∧ Forall P evs.

(** No action at all. *)
Definition silent {A} (m : M A) : Prop := emits (λ _, False) m.

(** The zero matrix of [makeMatrix]. *)
Definition zeros (height width : Z) : grid :=
  replicate (Z.to_nat height) (replicate (Z.to_nat width) x00).

(** A matrix of the given dimensions. *)
Definition dims (g : grid) (height width : Z) : Prop :=
  len g = height ∧ Forall (λ row, len row = width) g.

(** The sample at row [r] and column [c], if there is one. *)
Definition cell (g : grid) (r c : Z) : option byte :=
  if decide (0 ≤ r ∧ 0 ≤ c) then row ← g !! Z.to_nat r; row !! Z.to_nat c
  else None.

(** The sample a getter yields ([0] where it panics). *)
Definition sample (data : getter) (k l : Z) : byte :=
  match data k l with
  | Return b => b
  | Panic _ => x00
  end.

(** The 25 samples of the 5x5 window centred at [(y, x)], row by row. *)
Definition window (data : getter) (y x : Z) : list Z :=
  k ← seqZ (y - 2) 5; l ← seqZ (x - 2) 5; [int (sample data k l)].

(** The value the kernel writes at a filtered coordinate: the element of
    index 13 of the sorted window. *)
Definition filtered (data : getter) (y x : Z) : byte :=
  uint8 (default 0 (sort_Ints (window data y x) !! 13%nat)).

(** The coordinates the kernel filters. *)
Definition interior (startY endY startX endX y x : Z) : Prop :=
  startY + 2 ≤ y < endY - 2 ∧ startX + 2 ≤ x < endX - 2.

(** The coordinates of a region. *)
Definition region (startY endY startX endX y x : Z) : Prop :=
  startY ≤ y < endY ∧ startX ≤ x < endX.

(** A call of the getter at a coordinate of the region. *)
Definition read_in (startY endY startX endX : Z) (e : event) : Prop :=
  ∃ k l, e = Read k l ∧ startY ≤ k < endY ∧ startX ≤ l < endX.

(** The sample of index [n] of the window centred at [(i, j)]. *)
Definition wval (data : getter) (i j n : Z) : Z :=
  int (sample data (i - 2 + n `div` 5) (j - 2 + n `mod` 5)).

(** The buffer after [n] samples of the window have been collected. *)
Definition collected (data : getter) (i j n : Z) (st : Z * list Z) : Prop :=
  st.1 = n ∧ length st.2 = 25%nat ∧
  ∀ m, 0 ≤ m < n → st.2 !! Z.to_nat m = Some (wval data i j m).

(** The coordinates filtered before the iteration [(i, j)]. *)
Definition before (startY endY startX endX i j y x : Z) : Prop :=
  interior startY endY startX endX y x ∧ (y < i ∨ (y = i ∧ x < j)).

(** The state of the two outer loops at the iteration [(i, j)]. *)
Definition filled (startY endY startX endX : Z) (data : getter) (i j : Z)
    (st : grid * list Z) : Prop :=
  length st.2 = 25%nat ∧
  dims st.1 (endY - startY) (endX - startX) ∧
  ∀ r c, 0 ≤ r < endY - startY → 0 ≤ c < endX - startX →
    cell st.1 r c =
      Some (if decide (before startY endY startX endX i j (startY + r) (startX + c))
            then filtered data (startY + r) (startX + c) else x00).

(** A matrix holding the same sample everywhere. *)
Definition flat (height width : Z) (c : byte) : grid :=
  replicate (Z.to_nat height) (replicate (Z.to_nat width) c).

(** The 5x5 matrix of the samples 0, 1, .., 24, row by row. *)
Definition ramp : grid :=
  (λ r, (λ c, uint8 (5 * r + c)) <$> seqZ 0 5) <$> seqZ 0 5.

(** The cells of a [height] x [width] matrix within [radius] 2 of an edge. *)
Definition border (height width r c : Z) : Prop :=
  r < 2 ∨ height - 2 ≤ r ∨ c < 2 ∨ width - 2 ≤ c.

Global Instance border_dec height width r c : Decision (border height width r c).
Proof. unfold border. apply _. Defined.

(** The scenario: a 10x10 matrix of samples 100 ([x64] is the byte 100), and
    the outputs with one and with two threads. *)
Definition flat100 : grid := flat 10 10 x64.

Definition scenario_1 : grid :=
  (λ r, (λ c, if decide (border 10 10 r c) then x00 else x64) <$> seqZ 0 10)
    <$> seqZ 0 10.

Definition scenario_2 : grid :=
  (λ r, (λ c, if decide (border 10 10 r c ∨ 3 ≤ r ≤ 6) then x00 else x64)
          <$> seqZ 0 10)
    <$> seqZ 0 10.

(** The sum of the heights of a list of bands. *)
Definition total_height (bs : list (Z * Z)) : Z :=
  foldr (λ b acc, (b.2 - b.1) + acc) 0 bs.

(** The loops of [filter], named: [filter_loops] shows that [filter] is
    made of them. *)
Definition open_chans (threads : Z) (resultChan : list chan) : M (list chan) :=
  for_lt 0 threads resultChan (λ i resultChan, lift (store resultChan i Open)).

Definition dispatch (height width : Z) (immutableData : getter)
    (threads partitionSize : Z) (resultChan : list chan) : M (list chan) :=
  for_lt 0 threads resultChan (λ t resultChan,
    let '(startY, endY) := band height threads partitionSize t in
    go_worker startY endY 0 width immutableData resultChan t).

Definition copy_band (width startY : Z) (partialResult newPixelData : grid) : M grid :=
  for_lt startY (startY + len partialResult) newPixelData (λ i newPixelData,
    for_lt 0 width newPixelData (λ j newPixelData,
      row ← lift (index partialResult (i - startY));
      v ← lift (index row j);
      lift (store2 newPixelData i j v))).

Definition merge (width threads partitionSize : Z) (resultChan : list chan)
    (newPixelData : grid) : M grid :=
  for_lt 0 threads newPixelData (λ t newPixelData,
    partialResult ← recv resultChan t;
    copy_band width (t * partitionSize) partialResult newPixelData).

(** The [go] statements of a run, in order. *)
Definition dispatched (height width threads : Z) : trace :=
  (λ b, Go b.1 b.2 0 width) <$> bands height threads.

(** A call of the getter. *)
Definition is_read (e : event) : Prop := ∃ k l, e = Read k l.

(** A call of the getter that returned. *)
Definition ok_read (data : getter) (e : event) : Prop :=
  ∀ k l, e = Read k l → ∃ b, data k l = Return b.

(** [logs data evs m]: a run of [m] that returns has added exactly the
    actions [evs] to the trace, and each call of [data] among them
    returned. *)
Definition logs {A} (data : getter) (evs : trace) (m : M A) : Prop :=
  ∀ tr a tr', m tr = (Return a, tr') →
    tr' = tr ++ evs ∧ Forall (ok_read data) evs.

(** The calls of the getter for the window centred at [(y, x)], in order. *)
Definition window_reads (y x : Z) : trace :=
  k ← seqZ (y - 2) 5; l ← seqZ (x - 2) 5; [Read k l].

(** The calls of the getter of a kernel run that returns, in order. *)
Definition kernel_reads (startY endY startX endX : Z) : trace :=
  i ← seqZ (startY + 2) (endY - startY - 4);
  j ← seqZ (startX + 2) (endX - startX - 4);
  window_reads i j.

(** The number of elements of a list that pass a test. *)
Fixpoint count (p : Z → bool) (l : list Z) : nat :=
  match l with
  | [] => 0
  | z :: l' => (if p z then 1 else 0) + count p l'
  end.


(** [run_in F m Q]: a run of [m] returns a value in [Q] or panics with a
    panic in [F]. *)
Definition run_in {A} (F : panic → Prop) (m : M A) (Q : A → Prop) : Prop :=
  ∀ tr, match fst (m tr) with Return a => Q a | Panic p => F p end.

(** The sample [getPixelData] stores for the pixel [(x, y)]. *)
Definition luminance_at (luminance : Z → Z → Z → byte) (img : Image)
    (x y : Z) : byte :=
  let '(r, g, b, _) := RGBA (At img x y) in luminance r g b.

(** A 5x5 image at the origin, and the same image moved to (1, 0); a stand-in
    for the luminance, for the examples. *)
Definition image_at (minX minY : Z) : Image :=
  {| Bounds := {| Min := {| X := minX; Y := minY |};
                  Max := {| X := minX + 5; Y := minY + 5 |} |};
     At := λ x y, {| RGBA := (5 * (y - minY) + (x - minX), 0, 0, 65535) |} |}.

Definition red_channel (r g b : Z) : byte := uint8 r.

(** An image of width 5 without rows. *)
Definition no_rows : Image :=
  {| Bounds := {| Min := {| X := 0; Y := 0 |}; Max := {| X := 5; Y := 0 |} |};
     At := λ x y, {| RGBA := (x, y, 0, 0) |} |}.








(** ** Reasoning about runs *)

Section rules.
Context {A B : Type}.
Implicit Types (E : Prop) (P : event → Prop).

Lemma sat_ret E (a : A) (Q : A → Prop) : Q a → sat E (mret a) Q.
Proof. intros Ha tr. exact Ha. Qed.

Lemma sat_lift E (a : A) (Q : A → Prop) : Q a → sat E (lift (Return a)) Q.
Proof. intros Ha tr. exact Ha. Qed.

Lemma sat_bind E (m : M A) (f : A → M B) (Q : A → Prop) (Q' : B → Prop) :
  sat E m Q → (∀ a, Q a → sat E (f a) Q') → sat E (m ≫= f) Q'.
Proof.
  intros Hm Hf tr. specialize (Hm tr). unfold mbind, M_bind.
  destruct (m tr) as [[a|p] tr']; simpl in *; [by apply Hf | done].
Qed.

Lemma bind_lift_Return (a : A) (f : A → M B) : lift (Return a) ≫= f = f a.
Proof. reflexivity. Qed.

Lemma bind_ret (a : A) (f : A → M B) : mret a ≫= f = f a.
Proof. reflexivity. Qed.

Lemma sat_mono E (m : M A) (Q Q' : A → Prop) :
  sat E m Q → (∀ a, Q a → Q' a) → sat E m Q'.
Proof.
  intros Hm HQ tr. specialize (Hm tr).
  destruct (fst (m tr)); auto.
Qed.

Lemma sat_returns (m : M A) (Q : A → Prop) tr :
  sat False m Q → ∃ a tr', m tr = (Return a, tr') ∧ Q a.
Proof.
  intros Hm. specialize (Hm tr).
  destruct (m tr) as [[a|p] tr']; simpl in *; [eauto | done].
Qed.

Lemma emits_ret P (a : A) : emits P (mret a).
Proof. intros tr. exists []. by rewrite app_nil_r. Qed.

Lemma emits_lift P (o : outcome A) : emits P (lift o).
Proof. intros tr. exists []. by rewrite app_nil_r. Qed.

Lemma emits_bind P (m : M A) (f : A → M B) :
  emits P m → (∀ a, emits P (f a)) → emits P (m ≫= f).
Proof.
  intros Hm Hf tr. destruct (Hm tr) as (evs & Htr & Hevs).
  unfold mbind, M_bind. destruct (m tr) as [[a|p] tr']; simpl in *; subst.
  - destruct (Hf a (tr ++ evs)) as (evs' & -> & Hevs').
    exists (evs ++ evs'). rewrite app_assoc. split; [done|].
    by apply Forall_app.
  - eauto.
Qed.

Lemma emits_mono P P' (m : M A) :
  emits P m → (∀ e, P e → P' e) → emits P' m.
Proof.
  intros Hm HP tr. destruct (Hm tr) as (evs & ? & ?).
  exists evs. split; [done|]. eapply Forall_impl; eauto.
Qed.

Lemma silent_snd (m : M A) tr : silent m → snd (m tr) = tr.
Proof.
  intros Hm. destruct (Hm tr) as (evs & -> & Hevs).
  destruct evs as [|e evs]; [by rewrite app_nil_r|].
  by apply Forall_cons in Hevs as [[] _].
Qed.

(** A silent run that returns is a value. *)
Lemma silent_returns (m : M A) (Q : A → Prop) tr :
  sat False m Q → silent m → ∃ a, m tr = (Return a, tr) ∧ Q a.
Proof.
  intros Hsat Hsil. destruct (sat_returns m Q tr Hsat) as (a & tr' & Heq & Ha).
  pose proof (silent_snd m tr Hsil) as Htr. rewrite Heq in Htr. simpl in Htr.
  subst. eauto.
Qed.
End rules.

Section loops.
Context {S : Type}.
Implicit Types (body : Z → S → M S) (s : S).

Lemma for_lt_nil lo hi s body : hi ≤ lo → for_lt lo hi s body = mret s.
Proof. intros. unfold for_lt. by rewrite seqZ_nil by lia. Qed.

Lemma for_lt_cons lo hi s body :
  lo < hi →
  for_lt lo hi s body = (s' ← body lo s; for_lt (lo + 1) hi s' body).
Proof.
  intros. unfold for_lt. rewrite seqZ_cons by lia. simpl.
  by replace (Z.pred (hi - lo)) with (hi - (lo + 1)) by lia.
Qed.

Lemma for_le_lt lo hi s body : for_le lo hi s body = for_lt lo (hi + 1) s body.
Proof. reflexivity. Qed.

(** The invariant rule of a counting loop. *)
Lemma sat_for_lt E lo hi s body (I : Z → S → Prop) :
  I lo s →
  (∀ i s, lo ≤ i < hi → I i s → sat E (body i s) (I (i + 1))) →
  sat E (for_lt lo hi s body) (I (Z.max lo hi)).
Proof.
  remember (Z.to_nat (hi - lo)) as n eqn:Hn.
  revert lo s Hn. induction n as [|n IH]; intros lo s Hn Hs Hbody.
  - rewrite for_lt_nil by lia. apply sat_ret.
    by replace (Z.max lo hi) with lo by lia.
  - rewrite for_lt_cons by lia.
    eapply sat_bind; [apply Hbody; [lia | done]|].
    intros s' Hs'. replace (Z.max lo hi) with (Z.max (lo + 1) hi) by lia.
    apply IH; [lia | done |]. intros i s'' ?. apply Hbody. lia.
Qed.

Lemma emits_for_lt P lo hi s body :
  (∀ i s, lo ≤ i < hi → emits P (body i s)) →
  emits P (for_lt lo hi s body).
Proof.
  remember (Z.to_nat (hi - lo)) as n eqn:Hn.
  revert lo s Hn. induction n as [|n IH]; intros lo s Hn Hbody.
  - rewrite for_lt_nil by lia. apply emits_ret.
  - rewrite for_lt_cons by lia.
    apply emits_bind; [apply Hbody; lia|].
    intros s'. apply IH; [lia|]. intros i s'' ?. apply Hbody. lia.
Qed.
End loops.

(** ** Slices and samples: basic facts *)

Lemma make_Return {A} (zero : A) n :
  0 ≤ n → make zero n = Return (replicate (Z.to_nat n) zero).
Proof. intros. unfold make. by rewrite decide_False by lia. Qed.

Lemma index_Return {A} (l : list A) i a :
  0 ≤ i → l !! Z.to_nat i = Some a → index l i = Return a.
Proof. intros ? Hl. unfold index. by rewrite decide_True, Hl by lia. Qed.

Lemma store_Return {A} (l : list A) i a :
  0 ≤ i < len l → store l i a = Return (<[Z.to_nat i := a]> l).
Proof. intros. unfold store. by rewrite decide_True by done. Qed.

Lemma store2_Return {A} (m : list (list A)) i j a row :
  0 ≤ i → m !! Z.to_nat i = Some row → 0 ≤ j < len row →
  store2 m i j a = Return (<[Z.to_nat i := <[Z.to_nat j := a]> row]> m).
Proof.
  intros Hi Hrow Hj. unfold store2.
  rewrite (index_Return _ _ _ Hi Hrow). simpl.
  rewrite store_Return by done. simpl.
  apply store_Return. apply lookup_lt_Some in Hrow. unfold len. lia.
Qed.

Lemma int_bounded b : 0 ≤ int b < 256.
Proof. unfold int. pose proof (Byte.to_N_bounded b). lia. Qed.

Lemma uint8_int b : uint8 (int b) = b.
Proof.
  unfold uint8. rewrite Z.mod_small by apply int_bounded.
  unfold int. by rewrite N2Z.id, Byte.of_to_N.
Qed.

Lemma sort_Ints_sorted l : Sorted Z.le (sort_Ints l).
Proof. apply (Sorted_merge_sort Z.le). Qed.

Lemma sort_Ints_perm l : sort_Ints l ≡ₚ l.
Proof. apply (merge_sort_Permutation Z.le). Qed.

(** There is one rearrangement into increasing order. *)
Lemma sort_Ints_unique l l' : Sorted Z.le l' → l' ≡ₚ l → l' = sort_Ints l.
Proof.
  intros Hsorted Hperm. apply (Sorted_unique Z.le); [done | |].
  - apply sort_Ints_sorted.
  - by rewrite sort_Ints_perm.
Qed.

(** ** Matrices *)

Lemma silent_makeMatrix height width : silent (makeMatrix height width).
Proof.
  apply emits_bind; [apply emits_lift|]. intros matrix.
  apply emits_for_lt. intros i m _.
  apply emits_bind; [apply emits_lift|]. intros row. apply emits_lift.
Qed.

Lemma sat_makeMatrix height width :
  0 ≤ height → 0 ≤ width →
  sat False (makeMatrix height width) (λ g, g = zeros height width).
Proof.
  intros Hh Hw. unfold makeMatrix.
  rewrite (make_Return _ height), bind_lift_Return by done.
  set (row := replicate (Z.to_nat width) x00).
  eapply sat_mono.
  - apply (sat_for_lt _ _ _ _ _ (λ i (m : grid),
      length m = Z.to_nat height ∧
      ∀ n, (n < Z.to_nat i)%nat → m !! n = Some row)).
    + split; [apply length_replicate | intros; lia].
    + intros i m Hi [Hlen Hm]. unfold len in Hi. rewrite length_replicate in Hi.
      rewrite (make_Return _ width), bind_lift_Return by done.
      rewrite store_Return by (unfold len; lia). apply sat_lift.
      split; [by rewrite length_insert|]. intros n Hn.
      destruct (decide (n = Z.to_nat i)) as [->|].
      * apply list_lookup_insert_eq. lia.
      * rewrite list_lookup_insert_ne by done. apply Hm. lia.
  - intros m [Hlen Hm]. symmetry. apply replicate_as_Forall. split; [done|].
    apply Forall_lookup. intros n x Hx. unfold len in Hm.
    rewrite length_replicate in Hm. rewrite Hm in Hx; [by injection Hx|].
    apply lookup_lt_Some in Hx. lia.
Qed.

Lemma makeMatrix_run height width tr :
  0 ≤ height → 0 ≤ width →
  makeMatrix height width tr = (Return (zeros height width), tr).
Proof.
  intros Hh Hw.
  destruct (silent_returns _ _ tr (sat_makeMatrix _ _ Hh Hw)
              (silent_makeMatrix _ _)) as (g & Hg & ->).
  done.
Qed.

Lemma dims_zeros height width :
  0 ≤ height → 0 ≤ width → dims (zeros height width) height width.
Proof.
  intros. unfold dims, zeros, len. rewrite length_replicate. split; [lia|].
  apply Forall_replicate. rewrite length_replicate. lia.
Qed.

Lemma cell_zeros height width r c :
  0 ≤ r < height → 0 ≤ c < width → cell (zeros height width) r c = Some x00.
Proof.
  intros. unfold cell, zeros. rewrite decide_True by lia.
  rewrite lookup_replicate_2 by lia. simpl. apply lookup_replicate_2. lia.
Qed.

(** [m[i][j] = a] changes the cell [(i, j)] and nothing else. *)
Lemma store2_spec (g : grid) height width i j a :
  dims g height width → 0 ≤ i < height → 0 ≤ j < width →
  ∃ g', store2 g i j a = Return g' ∧ dims g' height width ∧
    ∀ r c, cell g' r c =
      if decide (r = i ∧ c = j) then Some a else cell g r c.
Proof.
  intros [Hlen Hrows] Hi Hj.
  destruct (lookup_lt_is_Some_2 g (Z.to_nat i)) as [row Hrow];
    [unfold len in Hlen; lia|].
  pose proof (Forall_lookup_1 _ _ _ _ Hrows Hrow) as Hw. simpl in Hw.
  eexists. split; [apply (store2_Return _ _ _ _ row); [lia | done | lia]|].
  split.
  - split; [unfold len in *; by rewrite length_insert|].
    apply Forall_insert; [done|]. unfold len in *. by rewrite length_insert.
  - intros r c. unfold cell.
    destruct (decide (r = i ∧ c = j)) as [[-> ->]|Hrc].
    + rewrite decide_True by lia.
      rewrite list_lookup_insert_eq by (apply lookup_lt_Some in Hrow; lia).
      simpl. apply list_lookup_insert_eq. unfold len in Hw. lia.
    + destruct (decide (0 ≤ r ∧ 0 ≤ c)); [|done].
      destruct (decide (Z.to_nat r = Z.to_nat i)) as [Heq|Hne].
      * rewrite Heq, list_lookup_insert_eq by (apply lookup_lt_Some in Hrow; lia).
        rewrite Hrow. simpl. apply list_lookup_insert_ne. lia.
      * by rewrite list_lookup_insert_ne.
Qed.

(** ** What the kernel computes *)

Lemma seqZ_5 m : seqZ m 5 = [m; m + 1; m + 2; m + 3; m + 4].
Proof.
  unfold seqZ. change (Z.to_nat 5) with 5%nat. cbn [seq fmap list_fmap].
  repeat (f_equal; try lia).
Qed.

Lemma length_window data y x : length (window data y x) = 25%nat.
Proof. unfold window. by rewrite !seqZ_5. Qed.

Lemma length_sort_Ints l : length (sort_Ints l) = length l.
Proof. apply Permutation_length, sort_Ints_perm. Qed.

Lemma sat_weaken {A} E (m : M A) Q : sat False m Q → sat E m Q.
Proof. intros Hm tr. specialize (Hm tr). by destruct (fst (m tr)). Qed.

Lemma sat_call E data k l :
  E ∨ (∃ b, data k l = Return b) →
  sat E (call data k l) (λ v, v = sample data k l).
Proof.
  intros Hd tr. unfold call, sample. simpl.
  destruct (data k l) as [b|p]; [done|]. by destruct Hd as [?|[? ?]].
Qed.

Section kernel.
Variables (startY endY startX endX : Z) (data : getter) (E : Prop).
Hypothesis Hdata : ∀ k l,
  region startY endY startX endX k l → E ∨ ∃ b, data k l = Return b.

Lemma collected_window i j st : collected data i j 25 st → st.2 = window data i j.
Proof.
  intros (_ & Hlen & Hst).
  apply (list_eq_same_length _ _ 25); [apply length_window | done |].
  intros n x y Hn Hx Hy.
  pose proof (Hst (Z.of_nat n)) as Hm. rewrite Nat2Z.id in Hm.
  rewrite Hm in Hx by lia. injection Hx as <-. clear Hm Hst.
  unfold window in Hy. rewrite !seqZ_5 in Hy.
  unfold wval.
  do 25 (destruct n as [|n];
    [injection Hy as <-; do 2 f_equal; Z.div_mod_to_equations; lia|]).
  lia.
Qed.

Lemma collected_eq i j n n' st :
  n = n' → collected data i j n st → collected data i j n' st.
Proof. by intros ->. Qed.

(** The two inner loops fill the buffer with the window, whatever it held. *)
Lemma sat_collect i j fv0 :
  region startY endY startX endX (i - 2) (j - 2) →
  region startY endY startX endX (i + 2) (j + 2) →
  length fv0 = 25%nat →
  sat E
    (for_le (i - 2) (i + 2) (0, fv0)
       (λ k st, for_le (j - 2) (j + 2) st
          (λ l '(count, filterValues),
             v ← call data k l;
             filterValues ← lift (store filterValues count (int v));
             mret (count + 1, filterValues))))
    (λ st, st.2 = window data i j).
Proof.
  intros Hlo Hhi Hfv0. unfold region in Hlo, Hhi. rewrite for_le_lt.
  eapply sat_mono.
  - apply (sat_for_lt E _ _ _ _
             (λ k st, collected data i j (5 * (k - (i - 2))) st)).
    + split; [simpl; lia|]. split; [done|]. intros; lia.
    + intros k st Hk Hst. rewrite for_le_lt.
      eapply sat_mono.
      * apply (sat_for_lt E _ _ _ _
                 (λ l st, collected data i j (5 * (k - (i - 2)) + (l - (j - 2))) st)).
        -- eapply collected_eq; [|exact Hst]. lia.
        -- intros l [count fv] Hl (Hc & Hlen & Hfv). simpl in Hc, Hlen, Hfv.
           cbv beta iota.
           eapply sat_bind; [apply sat_call, Hdata; unfold region; lia|].
           intros v ->. rewrite store_Return by (unfold len; lia).
           rewrite bind_lift_Return. apply sat_ret.
           split; [simpl; lia|]. split; [simpl; by rewrite length_insert|].
           simpl. intros m Hm. destruct (decide (m = count)) as [->|].
           ++ rewrite list_lookup_insert_eq by lia. unfold wval.
              do 3 f_equal; Z.div_mod_to_equations; lia.
           ++ rewrite list_lookup_insert_ne by lia. apply Hfv. lia.
      * intros st'. apply collected_eq. lia.
  - intros st Hst. apply (collected_window i j).
    eapply collected_eq; [|exact Hst]. lia.
Qed.

Hypothesis Hheight : 0 ≤ endY - startY.
Hypothesis Hwidth : 0 ≤ endX - startX.

Lemma filled_equiv i j i' j' st :
  (∀ y x, before startY endY startX endX i j y x ↔
           before startY endY startX endX i' j' y x) →
  filled startY endY startX endX data i j st →
  filled startY endY startX endX data i' j' st.
Proof.
  intros Heq (Hlen & Hdims & Hcell). split; [done|]. split; [done|].
  intros r c Hr Hc. rewrite (Hcell r c Hr Hc). f_equal.
  apply decide_ext, Heq.
Qed.

(** One iteration of the loop over [j]: the window is collected and
    sorted, and its element of index 13 is written at [(i, j)]. *)
Lemma sat_pixel i j fm fv :
  interior startY endY startX endX i j →
  filled startY endY startX endX data i j (fm, fv) →
  sat E
    ('(_, filterValues) ←
       for_le (i - 2) (i + 2) (0, fv)
         (λ k st, for_le (j - 2) (j + 2) st
            (λ l '(count, filterValues),
               v ← call data k l;
               filterValues ← lift (store filterValues count (int v));
               mret (count + 1, filterValues)));
     let filterValues := sort_Ints filterValues in
     m ← lift (index filterValues 13);
     filteredMatrix ←
       lift (store2 fm (i - startY) (j - startX) (uint8 m));
     mret (filteredMatrix, filterValues))
    (filled startY endY startX endX data i (j + 1)).
Proof.
  intros Hij (Hlen & Hdims & Hcell). unfold interior in Hij.
  simpl in Hlen, Hdims, Hcell.
  eapply sat_bind;
    [apply (sat_collect i j); [unfold region; lia .. | done]|].
  intros [count fv'] Hfv'. simpl in Hfv'. subst fv'. cbv beta iota zeta.
  destruct (lookup_lt_is_Some_2 (sort_Ints (window data i j)) 13) as [m Hm];
    [rewrite length_sort_Ints, length_window; lia|].
  rewrite (index_Return _ 13 m) by (done || lia). rewrite bind_lift_Return.
  destruct (store2_spec fm _ _ (i - startY) (j - startX) (uint8 m) Hdims)
    as (fm' & -> & Hdims' & Hcell'); [lia | lia |].
  rewrite bind_lift_Return. apply sat_ret.
  split; [simpl; by rewrite length_sort_Ints, length_window|].
  split; [done|]. simpl. intros r c Hr Hc. rewrite Hcell'.
  destruct (decide (r = i - startY ∧ c = j - startX)) as [[-> ->]|Hne].
  - replace (startY + (i - startY)) with i by lia.
    replace (startX + (j - startX)) with j by lia.
    rewrite decide_True by (unfold before, interior; lia).
    unfold filtered. by rewrite Hm.
  - rewrite (Hcell r c Hr Hc). f_equal. apply decide_ext.
    unfold before, interior. lia.
Qed.

(** The two outer loops. *)
Lemma sat_rows fv :
  length fv = 25%nat →
  sat E
    (for_lt (2 + startY) (endY - 2)
       (zeros (endY - startY) (endX - startX), fv)
       (λ i st,
          for_lt (2 + startX) (endX - 2) st
            (λ j '(filteredMatrix, filterValues),
               '(_, filterValues) ←
                 for_le (i - 2) (i + 2) (0, filterValues)
                   (λ k st, for_le (j - 2) (j + 2) st
                      (λ l '(count, filterValues),
                         v ← call data k l;
                         filterValues ←
                           lift (store filterValues count (int v));
                         mret (count + 1, filterValues)));
               let filterValues := sort_Ints filterValues in
               m ← lift (index filterValues 13);
               filteredMatrix ←
                 lift (store2 filteredMatrix (i - startY) (j - startX)
                         (uint8 m));
               mret (filteredMatrix, filterValues))))
    (λ st, dims st.1 (endY - startY) (endX - startX) ∧
       ∀ r c, 0 ≤ r < endY - startY → 0 ≤ c < endX - startX →
         cell st.1 r c =
           Some (if decide (interior startY endY startX endX
                              (startY + r) (startX + c))
                 then filtered data (startY + r) (startX + c) else x00)).
Proof.
  intros Hfv. eapply sat_mono.
  - apply (sat_for_lt E _ _ _ _
             (λ i st, filled startY endY startX endX data i (2 + startX) st)).
    + split; [done|]. split; [by apply dims_zeros|]. simpl.
      intros r c Hr Hc. rewrite cell_zeros by done. f_equal.
      rewrite decide_False; [done|]. unfold before, interior. lia.
    + intros i st Hi Hst. eapply sat_mono.
      * apply (sat_for_lt E _ _ _ _
                 (λ j st, filled startY endY startX endX data i j st)); [done|].
        intros j [fm fv'] Hj Hst'. apply sat_pixel; [|done].
        unfold interior. lia.
      * intros st'. apply filled_equiv. intros y x.
        unfold before, interior. lia.
  - intros st (_ & Hdims & Hcell). split; [done|].
    intros r c Hr Hc. rewrite (Hcell r c Hr Hc). f_equal.
    apply decide_ext. unfold before, interior. lia.
Qed.

(** The kernel: dimensions and cells of the grid it returns. *)
Lemma sat_medianFilter :
  sat E (medianFilter startY endY startX endX data)
    (λ g, dims g (endY - startY) (endX - startX) ∧
       ∀ r c, 0 ≤ r < endY - startY → 0 ≤ c < endX - startX →
         cell g r c =
           Some (if decide (interior startY endY startX endX
                              (startY + r) (startX + c))
                 then filtered data (startY + r) (startX + c) else x00)).
Proof.
  unfold medianFilter. cbv zeta.
  change (Z.quot (5 * 5 + 1) 2) with 13.
  eapply sat_bind; [apply sat_weaken, sat_makeMatrix; done|].
  intros ? ->. rewrite (make_Return 0 (5 * 5)), bind_lift_Return by lia.
  eapply sat_bind; [apply sat_rows; by rewrite length_replicate|].
  intros [g fv] Hg. by apply sat_ret.
Qed.
End kernel.

(** ** What the kernel reads *)

Lemma emits_call P data k l : P (Read k l) → emits P (call data k l).
Proof. intros HP tr. exists [Read k l]. split; [done|]. by constructor. Qed.

Lemma emits_silent {A} P (m : M A) : silent m → emits P m.
Proof. intros Hm. eapply emits_mono; [exact Hm | done]. Qed.

Lemma emits_medianFilter startY endY startX endX data :
  emits (read_in startY endY startX endX)
    (medianFilter startY endY startX endX data).
Proof.
  unfold medianFilter. cbv zeta.
  apply emits_bind; [apply emits_silent, silent_makeMatrix|].
  intros filteredMatrix. apply emits_bind; [apply emits_lift|].
  intros filterValues. apply emits_bind.
  - apply emits_for_lt. intros i st Hi.
    apply emits_for_lt. intros j [fm fv] Hj.
    apply emits_bind.
    + rewrite for_le_lt. apply emits_for_lt. intros k st' Hk.
      rewrite for_le_lt. apply emits_for_lt. intros l [count fv'] Hl.
      apply emits_bind; [|intros v; apply emits_bind;
                            [apply emits_lift | intros; apply emits_ret]].
      apply emits_call. exists k, l. split; [done|]. lia.
    + intros [count fv']. apply emits_bind; [apply emits_lift|].
      intros m. apply emits_bind; [apply emits_lift|].
      intros fm'. apply emits_ret.
  - intros [fm fv]. apply emits_ret.
Qed.

(** ** Runs, equationally *)

Lemma bind_run {A B} (m : M A) (f : A → M B) tr a tr' :
  m tr = (Return a, tr') → (m ≫= f) tr = f a tr'.
Proof. intros Hm. unfold mbind, M_bind. by rewrite Hm. Qed.

Lemma for_lt_skip {S} lo hi (s : S) body :
  (∀ i s, lo ≤ i < hi → body i s = mret s) → for_lt lo hi s body = mret s.
Proof.
  remember (Z.to_nat (hi - lo)) as n eqn:Hn.
  revert lo Hn. induction n as [|n IH]; intros lo Hn Hbody.
  - by rewrite for_lt_nil by lia.
  - rewrite for_lt_cons, Hbody, bind_ret by lia.
    apply IH; [lia|]. intros i s' ?. apply Hbody. lia.
Qed.

(** A region with fewer than five rows or columns: nothing is filtered and
    nothing is read. *)
Lemma medianFilter_degenerate startY endY startX endX data tr :
  0 ≤ endY - startY → 0 ≤ endX - startX →
  endY - startY < 5 ∨ endX - startX < 5 →
  medianFilter startY endY startX endX data tr =
    (Return (zeros (endY - startY) (endX - startX)), tr).
Proof.
  intros Hh Hw Hsmall. unfold medianFilter. cbv zeta.
  erewrite bind_run by (by apply makeMatrix_run).
  rewrite (make_Return 0 (5 * 5)), bind_lift_Return by lia.
  destruct (decide (endY - startY < 5)).
  - by rewrite for_lt_nil by lia.
  - rewrite for_lt_skip; [done|]. intros i st _. apply for_lt_nil. lia.
Qed.

(** ** The kernel on matrices *)

Lemma makeImmutableMatrix_Return matrix height width k l :
  dims matrix height width → 0 ≤ k < height → 0 ≤ l < width →
  ∃ b, makeImmutableMatrix matrix k l = Return b ∧ cell matrix k l = Some b.
Proof.
  intros [Hlen Hrows] Hk Hl. unfold makeImmutableMatrix, cell, len in *.
  destruct (lookup_lt_is_Some_2 matrix (Z.to_nat k)) as [row Hrow]; [lia|].
  pose proof (Forall_lookup_1 _ _ _ _ Hrows Hrow) as Hw. simpl in Hw.
  destruct (lookup_lt_is_Some_2 row (Z.to_nat l)) as [b Hb]; [lia|].
  exists b. rewrite decide_True by lia.
  rewrite (index_Return matrix k row) by (done || lia). simpl.
  rewrite Hrow. simpl. split; [|done]. apply index_Return; [lia | done].
Qed.

Lemma dims_ramp : dims ramp 5 5.
Proof. split; [done|]. repeat constructor. Qed.

Lemma dims_flat height width c :
  0 ≤ height → 0 ≤ width → dims (flat height width c) height width.
Proof.
  intros. unfold dims, flat, len. rewrite length_replicate. split; [lia|].
  apply Forall_replicate. rewrite length_replicate. lia.
Qed.

Lemma flat_Return height width c k l :
  0 ≤ k < height → 0 ≤ l < width →
  makeImmutableMatrix (flat height width c) k l = Return c.
Proof.
  intros Hk Hl. unfold makeImmutableMatrix, flat.
  rewrite (index_Return _ k (replicate (Z.to_nat width) c))
    by (lia || (apply lookup_replicate_2; lia)).
  simpl. apply index_Return; [lia|]. apply lookup_replicate_2. lia.
Qed.

Lemma sort_Ints_replicate n z : sort_Ints (replicate n z) = replicate n z.
Proof. symmetry. apply replicate_Permutation. symmetry. apply sort_Ints_perm. Qed.

(** On a window of equal samples the kernel writes that sample. *)
Lemma filtered_flat data y x c :
  (∀ k l, y - 2 ≤ k ≤ y + 2 → x - 2 ≤ l ≤ x + 2 → data k l = Return c) →
  filtered data y x = c.
Proof.
  intros Hc. unfold filtered.
  assert (window data y x = replicate 25 (int c)) as ->.
  { unfold window. rewrite !seqZ_5. unfold sample.
    cbn [mbind list_bind mret list_ret fmap list_fmap app concat mjoin list_join].
    rewrite !Hc by lia. reflexivity. }
  rewrite sort_Ints_replicate. simpl. apply uint8_int.
Qed.

(** The kernel returns whenever the getter does on the region, and then the
    cells of the grid are the filtered values inside and 0 elsewhere. *)
Lemma medianFilter_returns startY endY startX endX data tr :
  0 ≤ endY - startY → 0 ≤ endX - startX →
  (∀ k l, region startY endY startX endX k l → ∃ b, data k l = Return b) →
  ∃ g tr', medianFilter startY endY startX endX data tr = (Return g, tr') ∧
    dims g (endY - startY) (endX - startX) ∧
    ∀ r c, 0 ≤ r < endY - startY → 0 ≤ c < endX - startX →
      cell g r c =
        Some (if decide (interior startY endY startX endX (startY + r) (startX + c))
              then filtered data (startY + r) (startX + c) else x00).
Proof.
  intros Hh Hw Hdata.
  apply sat_returns, sat_medianFilter; [|done|done].
  intros k l Hkl. right. by apply Hdata.
Qed.

(** Whatever the getter does, a grid the kernel returns has these cells. *)
Lemma medianFilter_partial startY endY startX endX data tr g tr' :
  0 ≤ endY - startY → 0 ≤ endX - startX →
  medianFilter startY endY startX endX data tr = (Return g, tr') →
  dims g (endY - startY) (endX - startX) ∧
  ∀ r c, 0 ≤ r < endY - startY → 0 ≤ c < endX - startX →
    cell g r c =
      Some (if decide (interior startY endY startX endX (startY + r) (startX + c))
            then filtered data (startY + r) (startX + c) else x00).
Proof.
  intros Hh Hw Hrun.
  assert (∀ k l, region startY endY startX endX k l →
            True ∨ ∃ b, data k l = Return b) as Hdata by (intros; by left).
  pose proof (sat_medianFilter _ _ _ _ _ True Hdata Hh Hw tr) as Hsat.
  by rewrite Hrun in Hsat.
Qed.

(** *** The bands *)

Lemma length_bands height threads :
  length (bands height threads) = Z.to_nat threads.
Proof. unfold bands. by rewrite length_fmap, length_seqZ. Qed.

Lemma lookup_bands height threads i b :
  bands height threads !! i = Some b ↔
  Z.of_nat i < threads ∧
  b = band height threads (Z.quot height threads) (Z.of_nat i).
Proof.
  unfold bands. rewrite list_lookup_fmap, fmap_Some. split.
  - intros (t & Ht & ->). apply lookup_seqZ in Ht as [-> ?].
    by rewrite Z.add_0_l.
  - intros [Hi ->]. exists (Z.of_nat i). split; [|done].
    apply lookup_seqZ. split; [lia | done].
Qed.

Lemma quot_bounds height threads :
  1 ≤ threads ≤ height →
  1 ≤ Z.quot height threads ∧
  threads * Z.quot height threads ≤ height
    < threads * Z.quot height threads + threads.
Proof.
  intros H. rewrite Z.quot_div_nonneg by lia.
  pose proof (Z.div_mod height threads ltac:(lia)) as Hdm.
  pose proof (Z.mod_pos_bound height threads ltac:(lia)) as Hmod.
  assert (0 < height `div` threads) by (apply Z.div_str_pos; lia).
  lia.
Qed.

Lemma total_height_app bs bs' :
  total_height (bs ++ bs') = total_height bs + total_height bs'.
Proof.
  unfold total_height. induction bs as [|b bs IH]; simpl; [done|].
  rewrite IH. lia.
Qed.

Lemma total_height_prefix height threads p n :
  Z.of_nat n < threads →
  total_height (band height threads p <$> seqZ 0 (Z.of_nat n)) = Z.of_nat n * p.
Proof.
  induction n as [|n IH]; intros Hn; [done|].
  rewrite seqZ_S, fmap_app, total_height_app, IH by lia.
  unfold total_height, band. simpl. rewrite decide_False by lia. simpl. lia.
Qed.

Lemma band_bounds height threads i b :
  1 ≤ threads ≤ height →
  bands height threads !! i = Some b →
  Z.of_nat i < threads ∧
  b.1 = Z.of_nat i * Z.quot height threads ∧
  b.2 = (if decide (Z.of_nat i = threads - 1) then height
         else (Z.of_nat i + 1) * Z.quot height threads) ∧
  0 ≤ b.1 ∧ b.1 < b.2 ∧ b.2 ≤ height.
Proof.
  intros Ht [Hi ->]%lookup_bands.
  destruct (quot_bounds height threads Ht) as [Hp Hq].
  set (p := Z.quot height threads) in *. unfold band. simpl.
  split; [done|]. split; [done|]. split; [done|].
  split; [apply Z.mul_nonneg_nonneg; lia|].
  case_decide as Hlast.
  - rewrite Hlast. lia.
  - split; [lia|].
    transitivity (threads * p); [|lia].
    apply Z.mul_le_mono_nonneg_r; lia.
Qed.

(** *** The loops of the coordinator *)

Lemma filter_loops height width data threads :
  threads ≠ 1 →
  filter height width data threads =
    (resultChan ← lift (make NilChan threads);
     partitionSize ← lift (div height threads);
     resultChan ← open_chans threads resultChan;
     resultChan ← dispatch height width data threads partitionSize resultChan;
     newPixelData ← makeMatrix height width;
     merge width threads partitionSize resultChan newPixelData).
Proof. intros Hne. unfold filter. by rewrite decide_False by done. Qed.

(** The rule of a counting loop whose iterations return, each with its own
    actions. *)
Lemma for_lt_exact {S} lo hi (s : S) body (I : Z → S → Prop)
    (ev : Z → list event) tr :
  I lo s →
  (∀ i s tr, lo ≤ i < hi → I i s →
     ∃ s', body i s tr = (Return s', tr ++ ev i) ∧ I (i + 1) s') →
  ∃ s', for_lt lo hi s body tr = (Return s', tr ++ (seqZ lo (hi - lo) ≫= ev)) ∧
        I (Z.max lo hi) s'.
Proof.
  remember (Z.to_nat (hi - lo)) as n eqn:Hn.
  revert lo s tr Hn. induction n as [|n IH]; intros lo s tr Hn Hs Hbody.
  - rewrite for_lt_nil, seqZ_nil by lia. exists s. simpl.
    rewrite app_nil_r. by replace (Z.max lo hi) with lo by lia.
  - rewrite for_lt_cons, seqZ_cons by lia.
    destruct (Hbody lo s tr) as (s1 & Hrun & Hs1); [lia | done |].
    erewrite bind_run by exact Hrun.
    destruct (IH (lo + 1) s1 (tr ++ ev lo)) as (s' & Hrun' & Hs');
      [lia | done | intros; apply Hbody; [lia | done] |].
    exists s'. rewrite Hrun'. simpl.
    replace (Z.pred (hi - lo)) with (hi - (lo + 1)) by lia.
    replace (Z.succ lo) with (lo + 1) by lia. rewrite app_assoc.
    by replace (Z.max lo hi) with (Z.max (lo + 1) hi) by lia.
Qed.

Lemma for_lt_skip_run {S} lo hi (s : S) body tr :
  (∀ i s tr, lo ≤ i < hi → body i s tr = (Return s, tr)) →
  for_lt lo hi s body tr = (Return s, tr).
Proof.
  intros Hbody.
  destruct (for_lt_exact lo hi s body (λ _ s', s' = s) (λ _, []) tr)
    as (s' & -> & ->); [done | |].
  - intros i s1 tr1 Hi ->. exists s. rewrite app_nil_r. by rewrite Hbody.
  - f_equal. clear. induction (seqZ lo (hi - lo)) as [|x l IH]; simpl.
    + by rewrite app_nil_r.
    + done.
Qed.

Lemma for_lt_snoc_run {S} lo hi (s : S) body tr :
  lo ≤ hi →
  for_lt lo (hi + 1) s body tr = (s' ← for_lt lo hi s body; body hi s') tr.
Proof.
  remember (Z.to_nat (hi - lo)) as n eqn:Hn.
  revert lo s tr Hn. induction n as [|n IH]; intros lo s tr Hn Hle.
  - assert (hi = lo) as -> by lia.
    rewrite for_lt_cons, (for_lt_nil lo lo), bind_ret by lia.
    unfold mbind, M_bind. destruct (body lo s tr) as [[s1|p] tr1]; [|done].
    by rewrite for_lt_nil by lia.
  - rewrite (for_lt_cons lo (hi + 1)), (for_lt_cons lo hi) by lia.
    unfold mbind, M_bind. destruct (body lo s tr) as [[s1|p] tr1]; [|done].
    rewrite IH by lia. done.
Qed.

Lemma list_bind_singleton {A B} (f : A → B) (l : list A) :
  l ≫= (λ x, [f x]) = f <$> l.
Proof. induction l as [|x l IH]; [done|]. by rewrite bind_cons, IH. Qed.

Lemma open_chans_run threads tr :
  0 ≤ threads →
  ∃ rc, open_chans threads (replicate (Z.to_nat threads) NilChan) tr
          = (Return rc, tr) ∧
        len rc = threads.
Proof.
  intros Ht. unfold open_chans.
  destruct (for_lt_exact 0 threads (replicate (Z.to_nat threads) NilChan)
              (λ i rc, lift (store rc i Open))
              (λ _ rc, len rc = threads) (λ _, []) tr)
    as (rc & Hrun & Hlen).
  - unfold len. rewrite length_replicate. lia.
  - intros i rc tr' Hi Hlen. rewrite store_Return by lia.
    eexists. rewrite app_nil_r. split; [done|].
    unfold len in *. by rewrite length_insert.
  - exists rc. split; [|done]. rewrite Hrun. f_equal.
    clear. induction (seqZ 0 (threads - 0)) as [|x l IH];
      [by rewrite app_nil_r | by rewrite bind_cons].
Qed.

(** The dispatch loop starts one worker per band, in order, and nothing
    else happens. *)
Lemma dispatch_run height width data threads rc tr :
  0 ≤ threads → len rc = threads →
  ∃ rc',
    dispatch height width data threads (Z.quot height threads) rc tr
      = (Return rc', tr ++ dispatched height width threads) ∧
    ∀ t, 0 ≤ t < threads →
      rc' !! Z.to_nat t =
        Some (Sending (worker (band height threads (Z.quot height threads) t).1
                              (band height threads (Z.quot height threads) t).2
                              0 width data)).
Proof.
  intros Ht Hlen. unfold dispatch. set (p := Z.quot height threads).
  destruct (for_lt_exact 0 threads rc
              (λ t rc,
                 let '(startY, endY) := band height threads p t in
                 go_worker startY endY 0 width data rc t)
              (λ n rc', len rc' = threads ∧
                 ∀ t, 0 ≤ t < n →
                   rc' !! Z.to_nat t =
                     Some (Sending (worker (band height threads p t).1
                                           (band height threads p t).2
                                           0 width data)))
              (λ t, [Go (band height threads p t).1
                        (band height threads p t).2 0 width]) tr)
    as (rc' & Hrun & _ & Hrc').
  - split; [done|]. intros; lia.
  - intros t rc1 tr1 Hi [Hlen1 Hrc1].
    destruct (band height threads p t) as [startY endY] eqn:Hband. simpl.
    destruct (lookup_lt_is_Some_2 rc1 (Z.to_nat t)) as [c Hc];
      [unfold len in Hlen1; lia|].
    unfold go_worker. rewrite (index_Return rc1 t c) by (lia || done).
    rewrite bind_lift_Return. erewrite bind_run by reflexivity.
    rewrite store_Return by lia. eexists. split; [done|].
    split; [unfold len in *; by rewrite length_insert|].
    intros t' Ht'. destruct (decide (t' = t)) as [->|].
    + unfold band in Hband. injection Hband as <- <-.
      apply list_lookup_insert_eq. unfold len in *. lia.
    + rewrite list_lookup_insert_ne by lia. apply Hrc1. lia.
  - exists rc'. split; [|intros; apply Hrc'; lia].
    etrans; [exact Hrun|]. do 2 f_equal. unfold dispatched, bands.
    rewrite Z.sub_0_r, list_bind_singleton, <-list_fmap_compose. done.
Qed.

Lemma recv_run rc t task tr :
  0 ≤ t → rc !! Z.to_nat t = Some (Sending task) → recv rc t tr = task tr.
Proof.
  intros Ht Hrc. unfold recv.
  by rewrite (index_Return rc t (Sending task)), bind_lift_Return by done.
Qed.

Lemma copy_band_nil width startY newPixelData :
  copy_band width startY [] newPixelData = mret newPixelData.
Proof. unfold copy_band. apply for_lt_nil. simpl. unfold len. simpl. lia. Qed.

(** Two matrices of the same dimensions with the same cells are equal. *)
Lemma grid_ext g1 g2 height width :
  dims g1 height width → dims g2 height width →
  (∀ r c, 0 ≤ r < height → 0 ≤ c < width → cell g1 r c = cell g2 r c) →
  g1 = g2.
Proof.
  intros [Hlen1 Hrows1] [Hlen2 Hrows2] Hcell. unfold len in *.
  apply (list_eq_same_length _ _ (Z.to_nat height)); [lia | lia |].
  intros i row1 row2 Hi Hrow1 Hrow2.
  pose proof (Forall_lookup_1 _ _ _ _ Hrows1 Hrow1) as Hw1.
  pose proof (Forall_lookup_1 _ _ _ _ Hrows2 Hrow2) as Hw2.
  simpl in Hw1, Hw2.
  apply (list_eq_same_length _ _ (Z.to_nat width)); [lia | lia |].
  intros j x y Hj Hx Hy.
  specialize (Hcell (Z.of_nat i) (Z.of_nat j) ltac:(lia) ltac:(lia)).
  unfold cell in Hcell. rewrite !decide_True, !Nat2Z.id in Hcell by lia.
  rewrite Hrow1, Hrow2 in Hcell. simpl in Hcell. congruence.
Qed.

Lemma silent_copy_band width startY partialResult newPixelData :
  silent (copy_band width startY partialResult newPixelData).
Proof.
  apply emits_for_lt. intros i npd _. apply emits_for_lt. intros j npd' _.
  apply emits_bind; [apply emits_lift|]. intros row.
  apply emits_bind; [apply emits_lift|]. intros v. apply emits_lift.
Qed.

Lemma sat_copy_band g npd height width :
  dims g height width → dims npd height width →
  sat False (copy_band width 0 g npd) (λ npd', npd' = g).
Proof.
  intros Hg Hnpd. unfold copy_band. eapply sat_mono.
  - apply (sat_for_lt False _ _ _ _ (λ i npd',
      dims npd' height width ∧
      ∀ r c, 0 ≤ r < i → 0 ≤ c < width → cell npd' r c = cell g r c)).
    + split; [done|]. intros; lia.
    + intros i npd1 Hi [Hdims1 Hcell1]. eapply sat_mono.
      * apply (sat_for_lt False _ _ _ _ (λ j npd',
          dims npd' height width ∧
          ∀ r c, 0 ≤ c < width → 0 ≤ r < i ∨ (r = i ∧ c < j) →
                 cell npd' r c = cell g r c)).
        -- split; [done|]. intros r c Hc [Hr|[_ ?]]; [by apply Hcell1 | lia].
        -- intros j npd2 Hj [Hdims2 Hcell2].
           destruct Hg as [Hlen Hrows].
           destruct (lookup_lt_is_Some_2 g (Z.to_nat i)) as [row Hrow];
             [unfold len in *; lia|].
           pose proof (Forall_lookup_1 _ _ _ _ Hrows Hrow) as Hw. simpl in Hw.
           destruct (lookup_lt_is_Some_2 row (Z.to_nat j)) as [v Hv];
             [unfold len in *; lia|].
           rewrite (index_Return g (i - 0) row), bind_lift_Return
             by (lia || by rewrite Z.sub_0_r).
           rewrite (index_Return row j v), bind_lift_Return by (lia || done).
           destruct (store2_spec npd2 height width i j v Hdims2)
             as (npd3 & -> & Hdims3 & Hcell3); [lia | lia |].
           apply sat_lift. split; [done|]. intros r c Hc Hrc.
           rewrite Hcell3. case_decide as Heq.
           ++ destruct Heq as [-> ->]. unfold cell.
              rewrite decide_True, Hrow by lia. done.
           ++ apply Hcell2; [done|]. lia.
      * intros npd' [Hdims' Hcell']. split; [done|].
        intros r c Hr Hc. apply Hcell'; lia.
  - intros npd' [Hdims' Hcell'].
    apply (grid_ext _ _ height width); [done | done |].
    intros r c Hr Hc. apply Hcell'; [|done].
    destruct Hg as [Hlen _]. lia.
Qed.

(** Copying a whole matrix over a matrix of the same dimensions. *)
Lemma copy_band_run g npd height width tr :
  dims g height width → dims npd height width →
  copy_band width 0 g npd tr = (Return g, tr).
Proof.
  intros Hg Hnpd.
  destruct (silent_returns _ _ tr (sat_copy_band g npd height width Hg Hnpd)
              (silent_copy_band _ _ _ _)) as (npd' & Hrun & ->).
  done.
Qed.

(** *** Thread counts that do not fit the image *)

Lemma filter_nonpositive height width data threads tr :
  threads ≤ 0 →
  filter height width data threads tr =
    (Panic (if decide (threads = 0) then IntegerDivideByZero
            else MakesliceLenOutOfRange), tr).
Proof.
  intros Ht. rewrite filter_loops by lia. case_decide as H0.
  - subst threads. by vm_compute.
  - unfold make. rewrite decide_True by lia. reflexivity.
Qed.

Lemma filter_more_threads_than_rows height width data threads tr :
  0 ≤ height < threads → 2 ≤ threads → 0 ≤ width →
  filter height width data threads tr =
    medianFilter 0 height 0 width data (tr ++ dispatched height width threads).
Proof.
  intros Hh Ht Hw. rewrite filter_loops by lia.
  rewrite make_Return, bind_lift_Return by lia.
  unfold div. rewrite decide_False, bind_lift_Return by lia.
  destruct (open_chans_run threads tr) as (rc & Hopen & Hlen); [lia|].
  erewrite bind_run by exact Hopen.
  destruct (dispatch_run height width data threads rc tr)
    as (rc' & Hdisp & Hrc'); [lia | done |].
  erewrite bind_run by exact Hdisp.
  erewrite bind_run by (apply makeMatrix_run; lia).
  set (tr1 := tr ++ dispatched height width threads).
  assert (Z.quot height threads = 0) as Hp by (apply Z.quot_small; lia).
  rewrite Hp in *. unfold merge.
  replace threads with (threads - 1 + 1) at 1 by lia.
  rewrite for_lt_snoc_run by lia.
  erewrite bind_run; cycle 1.
  { apply for_lt_skip_run. intros t npd tr' Hi.
    erewrite bind_run; cycle 1.
    { erewrite recv_run; [|lia|apply Hrc'; lia].
      unfold band, worker. rewrite decide_False by lia. simpl.
      rewrite !Z.mul_0_r. apply medianFilter_degenerate; lia. }
    simpl. by rewrite copy_band_nil. }
  unfold mbind at 1, M_bind at 1.
  erewrite recv_run; [|lia|apply Hrc'; lia].
  unfold band, worker. rewrite decide_True by lia. simpl.
  rewrite !Z.mul_0_r.
  destruct (medianFilter 0 height 0 width data tr1) as [[g|p] tr2] eqn:Hrun;
    [|done].
  destruct (medianFilter_partial 0 height 0 width data tr1 g tr2)
    as [Hdims _]; [lia | lia | done |].
  rewrite !Z.sub_0_r in Hdims.
  apply (copy_band_run g _ height width); [done|]. apply dims_zeros; lia.
Qed.

Lemma bands_more_threads_than_rows height threads :
  0 ≤ height < threads → 2 ≤ threads →
  bands height threads =
    replicate (Z.to_nat (threads - 1)) (0, 0) ++ [(0, height)].
Proof.
  intros Hh Ht. unfold bands. rewrite Z.quot_small by lia.
  assert (∀ n, Z.of_nat n < threads →
            band height threads 0 <$> seqZ 0 (Z.of_nat n) = replicate n (0, 0))
    as Hprefix.
  { induction n as [|n IH]; intros Hn; [done|].
    rewrite seqZ_S, fmap_app, IH, replicate_S_end by lia. f_equal.
    unfold band. simpl. rewrite decide_False by lia. f_equal; f_equal; lia. }
  assert (seqZ 0 threads
          = seqZ 0 (Z.of_nat (Z.to_nat (threads - 1)))
              ++ [0 + Z.of_nat (Z.to_nat (threads - 1))]) as ->.
  { rewrite <-seqZ_S. f_equal. lia. }
  rewrite fmap_app, Hprefix by lia. f_equal.
  unfold band. simpl. rewrite decide_True by lia. f_equal; f_equal; lia.
Qed.

(** After the dispatch the coordinator only calls the getter: the [go]
    statements of a run with [threads ≠ 1] are those of [bands], in order. *)
Lemma filter_dispatches_bands height width data threads tr :
  threads ≠ 1 →
  ∃ evs, snd (filter height width data threads tr) = tr ++ evs ∧
    (0 < threads →
     ∃ reads, evs = dispatched height width threads ++ reads ∧
              Forall is_read reads).
Proof.
  intros Hne. destruct (decide (threads ≤ 0)) as [Hle|Hpos].
  { exists []. rewrite filter_nonpositive by done. simpl.
    rewrite app_nil_r. split; [done|]. lia. }
  rewrite filter_loops by done.
  rewrite make_Return, bind_lift_Return by lia.
  unfold div. rewrite decide_False, bind_lift_Return by lia.
  destruct (open_chans_run threads tr) as (rc & Hopen & Hlen); [lia|].
  erewrite bind_run by exact Hopen.
  destruct (dispatch_run height width data threads rc tr)
    as (rc' & Hdisp & Hrc'); [lia | done |].
  erewrite bind_run by exact Hdisp.
  assert (emits is_read
            (newPixelData ← makeMatrix height width;
             merge width threads (Z.quot height threads) rc' newPixelData))
    as Hemits.
  { apply emits_bind; [apply emits_silent, silent_makeMatrix|].
    intros npd. apply emits_for_lt. intros t npd' Hi.
    apply emits_bind; [|intros; apply emits_silent, silent_copy_band].
    unfold recv. rewrite (index_Return rc' t _ ltac:(lia) (Hrc' t Hi)).
    rewrite bind_lift_Return. unfold worker.
    eapply emits_mono; [apply emits_medianFilter|].
    intros e (k & l & -> & _). by exists k, l. }
  destruct (Hemits (tr ++ dispatched height width threads))
    as (reads & Hreads & Hall).
  exists (dispatched height width threads ++ reads).
  rewrite Hreads, app_assoc. split; [done|]. eauto.
Qed.

(** ** The claims *)

(** C1 (the code departs from the claim).  On the 5x5 matrix of the samples
    0..24 the sorted window of the centre is 0, 1, .., 24, whose 13th smallest
    element (index 12) is 12; the kernel writes 13, the element of index
    [midPoint = (5*5+1)/2 = 13]. *)
Theorem C1_kernel_takes_index_13 :
  ∃ g tr,
    medianFilter 0 5 0 5 (makeImmutableMatrix ramp) [] = (Return g, tr) ∧
    sort_Ints (window (makeImmutableMatrix ramp) 2 2) = seqZ 0 25 ∧
    seqZ 0 25 !! 12%nat = Some 12 ∧
    cell g 2 2 = Some (uint8 13) ∧
    cell g 2 2 ≠ Some (uint8 12).
Proof.
  eexists _, _. split; [vm_compute; reflexivity|].
  split; [by vm_compute|]. split; [by vm_compute|].
  split; [by vm_compute|]. vm_compute. discriminate.
Qed.

(** C2, as stated, fails: with 6 threads on a 5x5 image no error is reported;
    six bands are dispatched, the kernel is called on the last one, and the
    run returns a grid. *)
Lemma C2_counterexample :
  5 < 6 ∧
  ∃ g reads,
    filter 5 5 (makeImmutableMatrix ramp) 6 [] =
      (Return g,
       [Go 0 0 0 5; Go 0 0 0 5; Go 0 0 0 5; Go 0 0 0 5; Go 0 0 0 5; Go 0 5 0 5]
         ++ reads) ∧
    length reads = 25%nat ∧
    cell g 2 2 = Some (uint8 13).
Proof.
  split; [lia|]. eexists _, _. split; [vm_compute; reflexivity|].
  split; by vm_compute.
Qed.

(** C2, amended.  On an image of dimensions [height] and [width]: with a
    thread count [threads <= 0] the run panics (make with a negative length,
    or integer division by zero for [threads = 0]) with the trace unchanged,
    so before any worker is started and without a call of the kernel; with a
    thread count [threads' > height] (and [threads' >= 2]) no error is
    reported: the run starts [threads' - 1] workers on the empty band [0,0)
    and one on [0,height), and from there on it is the run of the kernel on
    the whole image. *)
Theorem C2_thread_count_unchecked height width data tr threads threads' :
  0 ≤ height → 0 ≤ width →
  threads ≤ 0 → height < threads' → 2 ≤ threads' →
  filter height width data threads tr =
    (Panic (if decide (threads = 0) then IntegerDivideByZero
            else MakesliceLenOutOfRange), tr) ∧
  dispatched height width threads' =
    replicate (Z.to_nat (threads' - 1)) (Go 0 0 0 width)
      ++ [Go 0 height 0 width] ∧
  filter height width data threads' tr =
    medianFilter 0 height 0 width data (tr ++ dispatched height width threads').
Proof.
  intros Hh Hw Hle Hlt Ht. split; [by apply filter_nonpositive|].
  split; [|by apply filter_more_threads_than_rows].
  unfold dispatched. rewrite bands_more_threads_than_rows by lia.
  by rewrite fmap_app, fmap_replicate.
Qed.

Lemma C2_thread_count_unchecked_witness :
  (0 ≤ 5 ∧ 0 ≤ 5 ∧ -1 ≤ 0 ∧ 5 < 6 ∧ 2 ≤ 6) ∧
  filter 5 5 (makeImmutableMatrix ramp) (-1) [] =
    (Panic (if decide (-1 = 0) then IntegerDivideByZero
            else MakesliceLenOutOfRange), []) ∧
  dispatched 5 5 6 =
    replicate (Z.to_nat (6 - 1)) (Go 0 0 0 5) ++ [Go 0 5 0 5] ∧
  filter 5 5 (makeImmutableMatrix ramp) 6 [] =
    medianFilter 0 5 0 5 (makeImmutableMatrix ramp) ([] ++ dispatched 5 5 6).
Proof.
  split; [lia|].
  apply (C2_thread_count_unchecked 5 5 (makeImmutableMatrix ramp) [] (-1) 6);
    lia.
Defined.

(** C3.  The 10x10 matrix of samples 100: with one thread the output is 100
    except on the border of width 2, which is 0; with two threads the bands
    are [0,5) and [5,10) and the rows 3, 4, 5 and 6 are 0 as well, so that
    the rows 2 and 7 alone hold 100, at their columns 2..7. *)
Theorem C3_scenario :
  int x64 = 100 ∧
  fst (filter 10 10 (makeImmutableMatrix flat100) 1 []) = Return scenario_1 ∧
  bands 10 2 = [(0, 5); (5, 10)] ∧
  fst (filter 10 10 (makeImmutableMatrix flat100) 2 []) = Return scenario_2 ∧
  (∀ r c, 0 ≤ r < 10 → 0 ≤ c < 10 →
     cell scenario_1 r c = Some (if decide (border 10 10 r c) then x00 else x64) ∧
     cell scenario_2 r c =
       Some (if decide ((r = 2 ∨ r = 7) ∧ 2 ≤ c < 8) then x64 else x00)).
Proof.
  split; [by vm_compute|]. split; [by vm_compute|].
  split; [by vm_compute|]. split; [by vm_compute|].
  intros r c Hr Hc.
  assert (Forall (λ r, Forall (λ c,
            cell scenario_1 r c =
              Some (if decide (border 10 10 r c) then x00 else x64) ∧
            cell scenario_2 r c =
              Some (if decide ((r = 2 ∨ r = 7) ∧ 2 ≤ c < 8) then x64 else x00))
            (seqZ 0 10)) (seqZ 0 10)) as Hall.
  { vm_compute. repeat constructor. }
  rewrite Forall_seqZ in Hall. specialize (Hall r ltac:(lia)).
  rewrite Forall_seqZ in Hall. apply Hall. lia.
Qed.

(** C4.  With [threads = 1] the coordinator is one call of the kernel on the
    whole region [0,height) x [0,width): same outcome and same trace, in which
    there is no [go] statement, only calls of the getter. *)
Theorem C4_single_thread height width data tr :
  filter height width data 1 tr = medianFilter 0 height 0 width data tr ∧
  ∃ reads, snd (filter height width data 1 tr) = tr ++ reads ∧
           Forall is_read reads.
Proof.
  split; [reflexivity|].
  destruct (emits_medianFilter 0 height 0 width data tr) as (evs & Hevs & Hall).
  exists evs. split; [exact Hevs|].
  eapply Forall_impl; [exact Hall|]. intros e (k & l & -> & _). by exists k, l.
Qed.

(** C5.  For [1 <= threads <= height] the bands of the coordinator, with
    [startY = t * (height / threads)] and [endY = (t + 1) * (height / threads)]
    except for the last band, which ends at [height], are [threads] non-empty
    intervals that start at 0, follow one another without gap, end at
    [height], cover exactly the rows of [0,height), each row once, and whose
    heights add up to [height]; with more than one thread they are the
    bands of the [go worker(..)] statements of the run, in order. *)
Theorem C5_bands_partition height threads :
  1 ≤ threads ≤ height →
  len (bands height threads) = threads ∧
  (∀ i b, bands height threads !! i = Some b →
     b.1 = Z.of_nat i * Z.quot height threads ∧
     b.2 = (if decide (Z.of_nat i = threads - 1) then height
            else (Z.of_nat i + 1) * Z.quot height threads) ∧
     b.1 < b.2) ∧
  (∃ b, bands height threads !! 0%nat = Some b ∧ b.1 = 0) ∧
  (∃ b, last (bands height threads) = Some b ∧ b.2 = height) ∧
  (∀ i b b', bands height threads !! i = Some b →
     bands height threads !! Datatypes.S i = Some b' → b.2 = b'.1) ∧
  (∀ y, 0 ≤ y < height →
     ∃ i b, bands height threads !! i = Some b ∧ b.1 ≤ y < b.2) ∧
  (∀ i b y, bands height threads !! i = Some b → b.1 ≤ y < b.2 →
     0 ≤ y < height) ∧
  (∀ i i' b b' y,
     bands height threads !! i = Some b → bands height threads !! i' = Some b' →
     b.1 ≤ y < b.2 → b'.1 ≤ y < b'.2 → i = i') ∧
  total_height (bands height threads) = height ∧
  (∀ width data tr, threads ≠ 1 →
     ∃ reads,
       snd (filter height width data threads tr)
         = tr ++ dispatched height width threads ++ reads ∧
       Forall is_read reads).
Proof.
  intros Ht. destruct (quot_bounds height threads Ht) as [Hp Hq].
  assert (∀ i, Z.of_nat i < threads →
            ∃ b, bands height threads !! i = Some b) as Hex.
  { intros i Hi. eexists. by apply lookup_bands. }
  split; [unfold len; rewrite length_bands; lia|].
  split.
  { intros i b Hb. destruct (band_bounds _ _ _ _ Ht Hb) as (_ & ? & ? & ? & ? & ?).
    done. }
  split.
  { destruct (Hex 0%nat) as [b Hb]; [lia|]. exists b. split; [done|].
    destruct (band_bounds _ _ _ _ Ht Hb) as (_ & -> & _). lia. }
  split.
  { rewrite last_lookup, length_bands.
    destruct (Hex (pred (Z.to_nat threads))) as [b Hb]; [lia|].
    exists b. split; [done|].
    destruct (band_bounds _ _ _ _ Ht Hb) as (_ & _ & -> & _).
    rewrite decide_True; [done | lia]. }
  split.
  { intros i b b' Hb Hb'.
    destruct (band_bounds _ _ _ _ Ht Hb) as (_ & _ & -> & _).
    destruct (band_bounds _ _ _ _ Ht Hb') as (? & -> & _).
    rewrite decide_False by lia. lia. }
  split.
  { intros y Hy. set (p := Z.quot height threads) in *.
    pose proof (Z.div_mod y p ltac:(lia)) as Hdm.
    pose proof (Z.mod_pos_bound y p ltac:(lia)) as Hmod.
    assert (0 ≤ y `div` p) by (apply Z.div_pos; lia).
    destruct (decide (y `div` p < threads - 1)) as [Hlt|Hge].
    - destruct (Hex (Z.to_nat (y `div` p))) as [b Hb]; [lia|].
      exists (Z.to_nat (y `div` p)), b. split; [done|].
      destruct (band_bounds _ _ _ _ Ht Hb) as (_ & -> & -> & _).
      rewrite decide_False by lia. fold p. rewrite Z2Nat.id by lia. lia.
    - destruct (Hex (Z.to_nat (threads - 1))) as [b Hb]; [lia|].
      exists (Z.to_nat (threads - 1)), b. split; [done|].
      destruct (band_bounds _ _ _ _ Ht Hb) as (_ & -> & -> & _).
      rewrite decide_True by lia. fold p. rewrite Z2Nat.id by lia.
      split; [|lia].
      transitivity (y `div` p * p); [|lia].
      apply Z.mul_le_mono_nonneg_r; lia. }
  split.
  { intros i b y Hb Hy.
    destruct (band_bounds _ _ _ _ Ht Hb) as (_ & _ & _ & ? & ? & ?). lia. }
  split.
  { assert (∀ i i' b b' y,
              bands height threads !! i = Some b →
              bands height threads !! i' = Some b' →
              b.1 ≤ y < b.2 → b'.1 ≤ y < b'.2 → ¬ (i < i')%nat) as Hord.
    { intros i i' b b' y Hb Hb' Hy Hy' Hlt.
      destruct (band_bounds _ _ _ _ Ht Hb) as (_ & _ & Hend & _).
      destruct (band_bounds _ _ _ _ Ht Hb') as (? & Hstart & _).
      rewrite decide_False in Hend by lia.
      assert ((Z.of_nat i + 1) * Z.quot height threads
              ≤ Z.of_nat i' * Z.quot height threads)
        by (apply Z.mul_le_mono_nonneg_r; lia).
      lia. }
    intros i i' b b' y Hb Hb' Hy Hy'.
    pose proof (Hord i i' b b' y Hb Hb' Hy Hy').
    pose proof (Hord i' i b' b y Hb' Hb Hy' Hy). lia. }
  split.
  { unfold bands.
    assert (seqZ 0 threads
            = seqZ 0 (Z.of_nat (Z.to_nat (threads - 1)))
                ++ [0 + Z.of_nat (Z.to_nat (threads - 1))]) as ->.
    { rewrite <-seqZ_S. f_equal. lia. }
    rewrite fmap_app, total_height_app, total_height_prefix by lia.
    unfold total_height, band. simpl. rewrite decide_True by lia. simpl. lia. }
  intros width data tr Hne.
  destruct (filter_dispatches_bands height width data threads tr Hne)
    as (evs & Hevs & Hreads).
  destruct Hreads as (reads & -> & Hall); [lia|]. eauto.
Qed.

Lemma C5_bands_partition_witness :
  1 ≤ 3 ≤ 10 ∧
  bands 10 3 = [(0, 3); (3, 6); (6, 10)] ∧
  len (bands 10 3) = 3 ∧
  total_height (bands 10 3) = 10.
Proof.
  split; [lia|]. split; [by vm_compute|].
  destruct (C5_bands_partition 10 3)
    as (Hlen & _ & _ & _ & _ & _ & _ & _ & Hsum & _); [lia|].
  by split.
Defined.

(** C6.  For a region of height and width at least 5, every cell of the
    returned grid within 2 of the top, bottom, left or right bound of the
    region is 0; the kernel returns whenever the getter does on the region. *)
Theorem C6_border_is_zero startY endY startX endX data tr :
  5 ≤ endY - startY → 5 ≤ endX - startX →
  ((∀ k l, region startY endY startX endX k l → ∃ b, data k l = Return b) →
   ∃ g tr', medianFilter startY endY startX endX data tr = (Return g, tr')) ∧
  ∀ g tr', medianFilter startY endY startX endX data tr = (Return g, tr') →
    dims g (endY - startY) (endX - startX) ∧
    ∀ r c, 0 ≤ r < endY - startY → 0 ≤ c < endX - startX →
      border (endY - startY) (endX - startX) r c → cell g r c = Some x00.
Proof.
  intros Hh Hw. split.
  - intros Hdata.
    destruct (medianFilter_returns startY endY startX endX data tr)
      as (g & tr' & Hrun & _); [lia | lia | done | eauto].
  - intros g tr' Hrun.
    destruct (medianFilter_partial startY endY startX endX data tr g tr')
      as [Hdims Hcell]; [lia | lia | done |].
    split; [done|]. intros r c Hr Hc Hb. rewrite Hcell by done.
    rewrite decide_False; [done|]. unfold interior, border in *. lia.
Qed.

Lemma C6_border_is_zero_witness :
  (5 ≤ 5 - 0 ∧ 5 ≤ 5 - 0) ∧
  ∃ g tr',
    medianFilter 0 5 0 5 (makeImmutableMatrix ramp) [] = (Return g, tr') ∧
    dims g (5 - 0) (5 - 0) ∧
    ∀ r c, 0 ≤ r < 5 - 0 → 0 ≤ c < 5 - 0 →
      border (5 - 0) (5 - 0) r c → cell g r c = Some x00.
Proof.
  split; [lia|].
  destruct (C6_border_is_zero 0 5 0 5 (makeImmutableMatrix ramp) [])
    as [Hret Hzero]; [lia | lia |].
  destruct Hret as (g & tr' & Hrun).
  { intros k l [Hk Hl].
    destruct (makeImmutableMatrix_Return ramp 5 5 k l dims_ramp)
      as (b & Hb & _); [lia | lia | eauto]. }
  exists g, tr'. split; [done|]. exact (Hzero g tr' Hrun).
Defined.

(** C7.  On a matrix of height and width at least 5 holding the same sample
    everywhere, the kernel applied to the whole matrix returns a grid holding
    that sample at every coordinate at least 2 away from every edge. *)
Theorem C7_flat_interior height width c tr :
  5 ≤ height → 5 ≤ width →
  ∃ g tr',
    medianFilter 0 height 0 width (makeImmutableMatrix (flat height width c)) tr
      = (Return g, tr') ∧
    dims g height width ∧
    ∀ i j, 2 ≤ i < height - 2 → 2 ≤ j < width - 2 → cell g i j = Some c.
Proof.
  intros Hh Hw.
  destruct (medianFilter_returns 0 height 0 width
              (makeImmutableMatrix (flat height width c)) tr)
    as (g & tr' & Hrun & Hdims & Hcell); [lia | lia | |].
  { intros k l [Hk Hl]. exists c. apply flat_Return; lia. }
  rewrite !Z.sub_0_r in Hdims, Hcell.
  exists g, tr'. split; [done|]. split; [done|].
  intros i j Hi Hj. rewrite Hcell by lia.
  rewrite decide_True by (unfold interior; lia). f_equal.
  apply filtered_flat. intros k l Hk Hl. apply flat_Return; lia.
Qed.

Lemma C7_flat_interior_witness :
  (5 ≤ 6 ∧ 5 ≤ 7) ∧
  ∃ g tr',
    medianFilter 0 6 0 7 (makeImmutableMatrix (flat 6 7 x64)) []
      = (Return g, tr') ∧
    dims g 6 7 ∧
    ∀ i j, 2 ≤ i < 6 - 2 → 2 ≤ j < 7 - 2 → cell g i j = Some x64.
Proof. split; [lia|]. apply (C7_flat_interior 6 7 x64 []); lia. Defined.






(** ** Further properties of the kernel *)

Section logs_rules.
Context {A B : Type}.
Variable data : getter.

Lemma logs_ret (a : A) : logs data [] (mret a).
Proof. intros tr a' tr' [= <- <-]. by rewrite app_nil_r. Qed.

Lemma logs_lift (o : outcome A) : logs data [] (lift o).
Proof. intros tr a' tr' [= _ <-]. by rewrite app_nil_r. Qed.

Lemma logs_silent (m : M A) : silent m → logs data [] m.
Proof.
  intros Hm tr a tr' Hrun. pose proof (silent_snd m tr Hm) as Htr.
  rewrite Hrun in Htr. simpl in Htr. subst. by rewrite app_nil_r.
Qed.

Lemma logs_bind evs1 evs2 (m : M A) (f : A → M B) :
  logs data evs1 m → (∀ a, logs data evs2 (f a)) →
  logs data (evs1 ++ evs2) (m ≫= f).
Proof.
  intros Hm Hf tr b tr'. unfold mbind, M_bind.
  destruct (m tr) as [[a|p] tr1] eqn:Hrun; [|done]. intros Hrun'.
  destruct (Hm tr a tr1 Hrun) as [-> Hall1].
  destruct (Hf a _ b tr' Hrun') as [-> Hall2].
  rewrite app_assoc. split; [done|]. by apply Forall_app.
Qed.

Lemma logs_eq evs evs' (m : M A) : evs = evs' → logs data evs m → logs data evs' m.
Proof. by intros ->. Qed.
End logs_rules.

Lemma logs_call data k l : logs data [Read k l] (call data k l).
Proof.
  intros tr b tr'. unfold call. intros [= Hb <-]. split; [done|].
  constructor; [|done]. intros k' l' [= <- <-]. eauto.
Qed.

Lemma logs_for_lt {S} data lo hi (s : S) body (ev : Z → trace) :
  (∀ i s, lo ≤ i < hi → logs data (ev i) (body i s)) →
  logs data (seqZ lo (hi - lo) ≫= ev) (for_lt lo hi s body).
Proof.
  remember (Z.to_nat (hi - lo)) as n eqn:Hn.
  revert lo s Hn. induction n as [|n IH]; intros lo s Hn Hbody.
  - rewrite for_lt_nil, seqZ_nil by lia. apply logs_ret.
  - rewrite for_lt_cons, seqZ_cons, bind_cons by lia.
    apply logs_bind; [apply Hbody; lia|]. intros s'.
    replace (Z.succ lo) with (lo + 1) by lia.
    replace (Z.pred (hi - lo)) with (hi - (lo + 1)) by lia.
    apply IH; [lia|]. intros i s'' ?. apply Hbody. lia.
Qed.

Lemma logs_medianFilter startY endY startX endX data :
  logs data (kernel_reads startY endY startX endX)
    (medianFilter startY endY startX endX data).
Proof.
  unfold medianFilter. cbv zeta.
  eapply logs_eq; [|apply (logs_bind data [] (kernel_reads startY endY startX endX))].
  { done. }
  { apply logs_silent, silent_makeMatrix. }
  intros filteredMatrix.
  eapply logs_eq; [|apply (logs_bind data [] (kernel_reads startY endY startX endX))].
  { done. }
  { apply logs_lift. }
  intros filterValues.
  eapply logs_eq; [|apply (logs_bind data (kernel_reads startY endY startX endX) [])].
  { by rewrite app_nil_r. }
  2: { intros [fm fv]. apply logs_ret. }
  eapply logs_eq; [|apply (logs_for_lt data _ _ _ _
    (λ i, j ← seqZ (startX + 2) (endX - startX - 4); window_reads i j))].
  { unfold kernel_reads. do 2 f_equal; lia. }
  intros i st Hi.
  eapply logs_eq; [|apply (logs_for_lt data _ _ _ _ (λ j, window_reads i j))].
  { do 2 f_equal; lia. }
  intros j [fm fv] Hj.
  eapply logs_eq; [|apply (logs_bind data (window_reads i j) [])].
  { by rewrite app_nil_r. }
  2: { intros [count fv'].
       eapply logs_eq; [|apply (logs_bind data [] []); [apply logs_lift|]].
       { done. }
       intros m.
       eapply logs_eq; [|apply (logs_bind data [] []); [apply logs_lift|]].
       { done. }
       intros fm'. apply logs_ret. }
  rewrite for_le_lt.
  eapply logs_eq; [|apply (logs_for_lt data _ _ _ _
    (λ k, l ← seqZ (j - 2) 5; [Read k l]))].
  { unfold window_reads. do 2 f_equal; lia. }
  intros k st' Hk. rewrite for_le_lt.
  eapply logs_eq; [|apply (logs_for_lt data _ _ _ _ (λ l, [Read k l]))].
  { do 2 f_equal; lia. }
  intros l [count fv'] Hl.
  eapply logs_eq; [|apply (logs_bind data [Read k l] []); [apply logs_call|]].
  { done. }
  intros v.
  eapply logs_eq; [|apply (logs_bind data [] []); [apply logs_lift|]].
  { done. }
  intros fv''. apply logs_ret.
Qed.

Lemma makeMatrix_cases height width tr :
  makeMatrix height width tr =
    (if decide (height < 0 ∨ (0 < height ∧ width < 0))
     then Panic MakesliceLenOutOfRange else Return (zeros height width), tr).
Proof.
  case_decide as Hbad.
  - unfold makeMatrix. destruct (decide (height < 0)).
    + assert (make ([] : list byte) height = Panic MakesliceLenOutOfRange)
        as -> by (unfold make; by rewrite decide_True by lia).
      done.
    + rewrite (make_Return _ height), bind_lift_Return by lia.
      unfold len. rewrite length_replicate, for_lt_cons by lia.
      assert (make x00 width = Panic MakesliceLenOutOfRange)
        as -> by (unfold make; by rewrite decide_True by lia).
      done.
  - destruct (decide (height = 0)) as [->|].
    + unfold makeMatrix. rewrite (make_Return _ 0), bind_lift_Return by lia.
      by rewrite for_lt_nil by (unfold len; rewrite length_replicate; lia).
    + apply makeMatrix_run; lia.
Qed.




(** With at least five rows and columns every coordinate of the region is in
    some window. *)
Lemma kernel_reads_cover startY endY startX endX k l :
  5 ≤ endY - startY → 5 ≤ endX - startX →
  region startY endY startX endX k l →
  Read k l ∈ kernel_reads startY endY startX endX.
Proof.
  intros Hh Hw [Hk Hl]. unfold kernel_reads, window_reads.
  apply list_elem_of_bind.
  exists (Z.max (startY + 2) (Z.min k (endY - 3))).
  split; [|apply elem_of_seqZ; lia].
  apply list_elem_of_bind.
  exists (Z.max (startX + 2) (Z.min l (endX - 3))).
  split; [|apply elem_of_seqZ; lia].
  apply list_elem_of_bind. exists k. split; [|apply elem_of_seqZ; lia].
  apply list_elem_of_bind. exists l. split; [|apply elem_of_seqZ; lia].
  by apply list_elem_of_singleton.
Qed.




Lemma count_app p l1 l2 : count p (l1 ++ l2) = (count p l1 + count p l2)%nat.
Proof. induction l1 as [|z l1 IH]; simpl; [done|]. rewrite IH. lia. Qed.

Lemma count_Permutation p l1 l2 : l1 ≡ₚ l2 → count p l1 = count p l2.
Proof. induction 1; simpl; lia. Qed.

Lemma count_Forall p l : Forall (λ z, p z = true) l → count p l = length l.
Proof. induction 1 as [|z l Hz _ IH]; simpl; [done|]. rewrite Hz, IH. done. Qed.

(** In a list in increasing order, the element of index [n] has at least
    [n + 1] elements below or equal to it, and all the elements from [n] on
    above or equal to it. *)
Lemma sorted_rank l n v :
  Sorted Z.le l → l !! n = Some v →
  (n + 1 ≤ count (λ z, Z.leb z v) l)%nat ∧
  (length l - n ≤ count (λ z, Z.leb v z) l)%nat.
Proof.
  intros Hsorted Hv. apply (Sorted_StronglySorted Z.le) in Hsorted.
  pose proof (take_drop_middle l n v Hv) as Hl.
  assert (length (take n l) = n) as Hn
    by (apply lookup_lt_Some in Hv; rewrite length_take; lia).
  revert Hl Hn. generalize (take n l) (drop (S n) l). intros l1 l2 <- <-.
  clear Hv. rewrite !count_app, length_app. simpl.
  split.
  - rewrite (count_Forall _ l1).
    + rewrite Z.leb_refl. lia.
    + apply Forall_forall. intros z Hz. apply Z.leb_le.
      apply (StronglySorted_app_1_elem_of Z.le _ _ z v Hsorted Hz). by left.
  - apply StronglySorted_app_1_r in Hsorted.
    apply StronglySorted_inv in Hsorted as [_ Hall].
    rewrite (count_Forall _ l2).
    + rewrite Z.leb_refl. lia.
    + eapply Forall_impl; [exact Hall|]. intros z Hz. by apply Z.leb_le.
Qed.

(** The samples of a window are samples of the getter at its coordinates. *)
Lemma elem_of_window data y x z :
  z ∈ window data y x →
  ∃ k l, y - 2 ≤ k ≤ y + 2 ∧ x - 2 ≤ l ≤ x + 2 ∧ z = int (sample data k l).
Proof.
  unfold window. intros (k & (l & Hz & Hl)%list_elem_of_bind & Hk)%list_elem_of_bind.
  apply list_elem_of_singleton in Hz. apply elem_of_seqZ in Hk, Hl.
  exists k, l. repeat split; (done || lia).
Qed.





Lemma ramp_Return k l :
  region 0 5 0 5 k l → ∃ b, makeImmutableMatrix ramp k l = Return b.
Proof.
  intros [Hk Hl].
  destruct (makeImmutableMatrix_Return ramp 5 5 k l dims_ramp)
    as (b & Hb & _); [lia | lia | eauto].
Qed.

(** ** Further properties of the coordinator *)

Lemma bands_disjoint height threads i i' b b' y :
  1 ≤ threads ≤ height →
  bands height threads !! i = Some b → bands height threads !! i' = Some b' →
  b.1 ≤ y < b.2 → b'.1 ≤ y < b'.2 → i = i'.
Proof.
  intros Ht.
  assert (∀ i i' b b',
            bands height threads !! i = Some b →
            bands height threads !! i' = Some b' →
            b.1 ≤ y < b.2 → b'.1 ≤ y < b'.2 → ¬ (i < i')%nat) as Hord.
  { clear i i' b b'. intros i i' b b' Hb Hb' Hy Hy' Hlt.
    destruct (band_bounds _ _ _ _ Ht Hb) as (_ & _ & Hend & _).
    destruct (band_bounds _ _ _ _ Ht Hb') as (? & Hstart & _).
    rewrite decide_False in Hend by lia.
    assert ((Z.of_nat i + 1) * Z.quot height threads
            ≤ Z.of_nat i' * Z.quot height threads)
      by (apply Z.mul_le_mono_nonneg_r;
          [destruct (quot_bounds height threads Ht); lia | lia]).
    lia. }
  intros Hb Hb' Hy Hy'.
  pose proof (Hord i i' b b' Hb Hb' Hy Hy').
  pose proof (Hord i' i b' b Hb' Hb Hy' Hy). lia.
Qed.

(** Copying a band at its place changes the rows of the band, which become
    those of the partial result, and nothing else. *)
Lemma sat_copy_band_at g npd height band_height width startY :
  dims g band_height width → dims npd height width →
  0 ≤ startY → startY + band_height ≤ height →
  sat False (copy_band width startY g npd) (λ npd',
    dims npd' height width ∧
    ∀ y x, cell npd' y x =
      if decide (startY ≤ y < startY + band_height ∧ 0 ≤ x < width)
      then cell g (y - startY) x else cell npd y x).
Proof.
  intros Hg Hnpd Hs Hfit. unfold copy_band.
  assert (len g = band_height) as Hlen by apply Hg.
  assert (0 ≤ band_height) by (unfold len in Hlen; lia).
  rewrite Hlen. eapply sat_mono.
  - apply (sat_for_lt False _ _ _ _ (λ i npd',
      dims npd' height width ∧
      ∀ y x, cell npd' y x =
        if decide (startY ≤ y < i ∧ 0 ≤ x < width)
        then cell g (y - startY) x else cell npd y x)).
    + split; [done|]. intros y x. by rewrite decide_False by lia.
    + intros i npd1 Hi [Hdims1 Hcell1]. eapply sat_mono.
      * apply (sat_for_lt False _ _ _ _ (λ j npd',
          dims npd' height width ∧
          ∀ y x, cell npd' y x =
            if decide ((startY ≤ y < i ∧ 0 ≤ x < width) ∨ (y = i ∧ 0 ≤ x < j))
            then cell g (y - startY) x else cell npd y x)).
        -- split; [done|]. intros y x. rewrite Hcell1.
           apply decide_ext. lia.
        -- intros j npd2 Hj [Hdims2 Hcell2].
           destruct Hg as [_ Hrows].
           destruct (lookup_lt_is_Some_2 g (Z.to_nat (i - startY)))
             as [row Hrow]; [unfold len in *; lia|].
           pose proof (Forall_lookup_1 _ _ _ _ Hrows Hrow) as Hw. simpl in Hw.
           destruct (lookup_lt_is_Some_2 row (Z.to_nat j)) as [v Hv];
             [unfold len in *; lia|].
           rewrite (index_Return g (i - startY) row), bind_lift_Return
             by (lia || done).
           rewrite (index_Return row j v), bind_lift_Return by (lia || done).
           destruct (store2_spec npd2 height width i j v Hdims2)
             as (npd3 & -> & Hdims3 & Hcell3); [lia | lia |].
           apply sat_lift. split; [done|]. intros y x.
           rewrite Hcell3. destruct (decide (y = i ∧ x = j)) as [[-> ->]|Hne].
           ++ rewrite decide_True by lia. unfold cell.
              rewrite decide_True, Hrow by lia. done.
           ++ rewrite Hcell2. apply decide_ext. lia.
      * intros npd' [Hdims' Hcell']. split; [done|].
        intros y x. rewrite Hcell'. apply decide_ext. lia.
  - intros npd' [Hdims' Hcell']. split; [done|].
    intros y x. rewrite Hcell'. apply decide_ext. lia.
Qed.

(** The run of [filter] with [threads] between 2 and [height], on a getter
    that returns on the image: in each band the cells are those of the kernel
    run on the band. *)
Lemma filter_banded height width data threads tr :
  2 ≤ threads ≤ height → 0 ≤ width →
  (∀ k l, region 0 height 0 width k l → ∃ b, data k l = Return b) →
  ∃ g tr',
    filter height width data threads tr = (Return g, tr') ∧
    dims g height width ∧
    ∀ i b y x, bands height threads !! i = Some b →
      b.1 ≤ y < b.2 → 0 ≤ x < width →
      cell g y x =
        Some (if decide (interior b.1 b.2 0 width y x)
              then filtered data y x else x00).
Proof.
  intros Ht Hw Hdata. assert (1 ≤ threads ≤ height) as Ht1 by lia.
  rewrite filter_loops by lia.
  rewrite make_Return, bind_lift_Return by lia.
  unfold div. rewrite decide_False, bind_lift_Return by lia.
  destruct (open_chans_run threads tr) as (rc & Hopen & Hlen); [lia|].
  erewrite bind_run by exact Hopen.
  destruct (dispatch_run height width data threads rc tr)
    as (rc' & Hdisp & Hrc'); [lia | done |].
  erewrite bind_run by exact Hdisp.
  erewrite bind_run by (apply makeMatrix_run; lia).
  set (p := Z.quot height threads) in *.
  set (tr1 := tr ++ dispatched height width threads).
  apply sat_returns. unfold merge. eapply sat_mono.
  - apply (sat_for_lt False _ _ _ _ (λ t npd,
      dims npd height width ∧
      ∀ i b y x, bands height threads !! i = Some b →
        b.1 ≤ y < b.2 → 0 ≤ x < width →
        cell npd y x =
          Some (if decide (Z.of_nat i < t ∧ interior b.1 b.2 0 width y x)
                then filtered data y x else x00))).
    + split; [apply dims_zeros; lia|]. intros i b y x Hb Hy Hx.
      destruct (band_bounds _ _ _ _ Ht1 Hb) as (_ & _ & _ & ? & ? & ?).
      rewrite cell_zeros by lia. by rewrite decide_False by (unfold interior; lia).
    + intros t npd Hi [Hdims Hcell].
      assert (bands height threads !! Z.to_nat t
              = Some (band height threads p t)) as Hbt.
      { apply lookup_bands. rewrite Z2Nat.id by lia. split; [lia | done]. }
      destruct (band_bounds _ _ _ _ Ht1 Hbt) as (_ & Hs & _ & Hs0 & Hlt & Hle).
      rewrite Z2Nat.id in Hs by lia. fold p in Hs.
      set (bt := band height threads p t) in *.
      eapply sat_bind.
      * unfold recv. rewrite (index_Return rc' t _ ltac:(lia) (Hrc' t Hi)).
        rewrite bind_lift_Return. unfold worker. fold bt.
        apply (sat_medianFilter bt.1 bt.2 0 width data False);
          [|lia|lia].
        intros k l [Hk Hl]. right. apply Hdata. unfold region. lia.
      * intros gt [Hdimst Hcellt]. cbv beta. rewrite <-Hs.
        rewrite Z.sub_0_r in Hdimst, Hcellt. eapply sat_mono.
        -- apply (sat_copy_band_at gt npd height (bt.2 - bt.1) width bt.1);
             [done | done | lia | lia].
        -- intros npd' [Hdims' Hcell']. split; [done|].
           intros i b y x Hb Hy Hx. rewrite Hcell'.
           destruct (decide (i = Z.to_nat t)) as [->|Hne].
           ++ rewrite Hbt in Hb. injection Hb as <-.
              rewrite decide_True by lia.
              rewrite Hcellt by lia.
              replace (bt.1 + (y - bt.1)) with y by lia.
              rewrite Z.add_0_l. f_equal. apply decide_ext. unfold interior. lia.
           ++ rewrite decide_False.
              ** rewrite (Hcell i b y x Hb Hy Hx). f_equal.
                 apply decide_ext. unfold interior. lia.
              ** intros [Hy' _]. apply Hne.
                 apply (bands_disjoint height threads i (Z.to_nat t) b bt y);
                   (done || lia).
  - intros g [Hdims Hcell]. split; [done|].
    intros i b y x Hb Hy Hx. rewrite (Hcell i b y x Hb Hy Hx). f_equal.
    destruct (band_bounds _ _ _ _ Ht1 Hb) as (? & _).
    apply decide_ext. unfold interior. lia.
Qed.

(** ** Further properties of [flattenImage] *)

Lemma silent_flattenImage image : silent (flattenImage image).
Proof.
  unfold flattenImage. cbv zeta.
  apply emits_bind; [apply emits_lift|]. intros row0.
  apply emits_bind; [apply emits_lift|]. intros fl.
  apply emits_for_lt. intros i fl' _.
  apply emits_bind; [apply emits_lift|]. intros row. apply emits_ret.
Qed.

Lemma sat_flattenImage image :
  image ≠ [] → sat False (flattenImage image) (λ pix, pix = mjoin image).
Proof.
  intros Hne. destruct image as [|row0 rest]; [done|].
  unfold flattenImage. cbv zeta.
  rewrite (index_Return _ 0 row0), bind_lift_Return by done.
  unfold make_cap. rewrite decide_False, bind_lift_Return
    by (unfold len; apply Zle_not_lt, Z.mul_nonneg_nonneg; lia).
  eapply sat_mono.
  - apply (sat_for_lt False _ _ _ _ (λ i pix,
      pix = mjoin (take (Z.to_nat i) (row0 :: rest)))); [done|].
    intros i pix Hi ->.
    destruct (lookup_lt_is_Some_2 (row0 :: rest) (Z.to_nat i)) as [row Hrow];
      [unfold len in Hi; lia|].
    rewrite (index_Return _ i row), bind_lift_Return by (lia || done).
    apply sat_ret.
    replace (Z.to_nat (i + 1)) with (Datatypes.S (Z.to_nat i)) by lia.
    rewrite (take_S_r _ _ _ Hrow), join_app. simpl. by rewrite app_nil_r.
  - intros pix ->. unfold len.
    rewrite Z.max_r, Nat2Z.id, firstn_all by lia. done.
Qed.

Lemma flattenImage_run image tr :
  flattenImage image tr =
    (match image with
     | [] => Panic IndexOutOfRange
     | _ :: _ => Return (mjoin image)
     end, tr).
Proof.
  destruct image as [|row0 rest]; [done|].
  destruct (silent_returns _ _ tr (sat_flattenImage (row0 :: rest) ltac:(done))
              (silent_flattenImage _)) as (pix & Hrun & ->).
  done.
Qed.

(** Row-major order: the sample [(r, c)] of a matrix with rows of length [w]
    is the element [r * w + c] of the concatenation of its rows. *)
Lemma lookup_join_rows (image : grid) w r c :
  Forall (λ row, length row = w) image → (c < w)%nat →
  mjoin image !! (r * w + c)%nat = image !! r ≫= (.!! c).
Proof.
  intros Hrows Hc. revert r.
  induction Hrows as [|row rest Hrow _ IH]; intros r; [done|].
  change (mjoin (row :: rest)) with (row ++ mjoin rest).
  destruct r as [|r]; simpl.
  - apply lookup_app_l. lia.
  - rewrite lookup_app_r by lia.
    replace (w + r * w + c - length row)%nat with (r * w + c)%nat by lia.
    apply IH.
Qed.

Lemma length_join_rows (image : grid) w :
  Forall (λ row, length row = w) image →
  length (mjoin image) = (length image * w)%nat.
Proof.
  induction 1 as [|row rest Hrow _ IH]; [done|].
  change (mjoin (row :: rest)) with (row ++ mjoin rest).
  rewrite length_app, IH, Hrow. simpl. lia.
Qed.

(** ** Further properties of [getPixelData] *)

Section run_in_rules.
Context {A B : Type}.
Implicit Types (F : panic → Prop).

Lemma run_in_ret F (a : A) (Q : A → Prop) : Q a → run_in F (mret a) Q.
Proof. intros Ha tr. exact Ha. Qed.

Lemma run_in_bind F (m : M A) (f : A → M B) (Q : A → Prop) (Q' : B → Prop) :
  run_in F m Q → (∀ a, Q a → run_in F (f a) Q') → run_in F (m ≫= f) Q'.
Proof.
  intros Hm Hf tr. specialize (Hm tr). unfold mbind, M_bind.
  destruct (m tr) as [[a|p] tr']; simpl in *; [by apply Hf | done].
Qed.

Lemma run_in_mono F (m : M A) (Q Q' : A → Prop) :
  run_in F m Q → (∀ a, Q a → Q' a) → run_in F m Q'.
Proof.
  intros Hm HQ tr. specialize (Hm tr). destruct (fst (m tr)); auto.
Qed.

Lemma run_in_sat F (m : M A) (Q : A → Prop) : sat False m Q → run_in F m Q.
Proof. intros Hm tr. specialize (Hm tr). by destruct (fst (m tr)). Qed.
End run_in_rules.

Lemma run_in_for_lt {S} F lo hi (s : S) body (I : Z → S → Prop) :
  I lo s →
  (∀ i s, lo ≤ i < hi → I i s → run_in F (body i s) (I (i + 1))) →
  run_in F (for_lt lo hi s body) (I (Z.max lo hi)).
Proof.
  remember (Z.to_nat (hi - lo)) as n eqn:Hn.
  revert lo s Hn. induction n as [|n IH]; intros lo s Hn Hs Hbody.
  - rewrite for_lt_nil by lia. apply run_in_ret.
    by replace (Z.max lo hi) with lo by lia.
  - rewrite for_lt_cons by lia.
    eapply run_in_bind; [apply Hbody; [lia | done]|].
    intros s' Hs'. replace (Z.max lo hi) with (Z.max (lo + 1) hi) by lia.
    apply IH; [lia | done |]. intros i s'' ?. apply Hbody. lia.
Qed.

(** [m[i][j] = a] on a matrix: the cell changes when the indices are in
    range, and it is an index panic when they are not. *)
Lemma store2_cases (g : grid) height width i j a :
  dims g height width →
  match store2 g i j a with
  | Return g' =>
      (0 ≤ i < height ∧ 0 ≤ j < width) ∧ dims g' height width ∧
      ∀ r c, cell g' r c = if decide (r = i ∧ c = j) then Some a else cell g r c
  | Panic p => p = IndexOutOfRange ∧ ¬ (0 ≤ i < height ∧ 0 ≤ j < width)
  end.
Proof.
  intros Hdims. destruct (decide (0 ≤ i < height ∧ 0 ≤ j < width)) as [Hin|Hout].
  - destruct (store2_spec g height width i j a Hdims) as (g' & -> & ? & ?);
      [lia | lia | done].
  - destruct Hdims as [Hlen Hrows]. unfold store2, index.
    destruct (decide (0 ≤ i)); [|done].
    destruct (g !! Z.to_nat i) as [row|] eqn:Hrow; [|done].
    pose proof (Forall_lookup_1 _ _ _ _ Hrows Hrow) as Hw. simpl in Hw.
    apply lookup_lt_Some in Hrow.
    assert (store row j a = Panic IndexOutOfRange) as Hstore
      by (unfold store; by rewrite decide_False by (unfold len in *; lia)).
    simpl. by rewrite Hstore.
Qed.

Lemma silent_getPixelData luminance img : silent (getPixelData luminance img).
Proof.
  unfold getPixelData. cbv zeta.
  apply emits_bind; [apply silent_makeMatrix|]. intros pixels.
  apply emits_bind; [|intros [? ?]; apply emits_ret].
  apply emits_for_lt. intros y st _. apply emits_for_lt. intros x [px curr] _.
  destruct (RGBA (At img x y)) as [[[r g] b] a].
  apply emits_bind; [apply emits_lift|]. intros px'. apply emits_ret.
Qed.

(** The two loops of [getPixelData] on an image whose bounds start at the
    origin. *)
Lemma sat_getPixelData luminance img :
  X (Min (Bounds img)) = 0 → Y (Min (Bounds img)) = 0 →
  0 ≤ X (Max (Bounds img)) → 0 ≤ Y (Max (Bounds img)) →
  sat False (getPixelData luminance img) (λ pixels,
    dims pixels (Dy (Bounds img)) (Dx (Bounds img)) ∧
    ∀ y x, 0 ≤ y < Dy (Bounds img) → 0 ≤ x < Dx (Bounds img) →
      cell pixels y x = Some (luminance_at luminance img x y)).
Proof.
  intros HX HY HmaxX HmaxY. unfold getPixelData, Dy, Dx. cbv zeta.
  rewrite HX, HY, !Z.sub_0_r.
  set (h := Y (Max (Bounds img))) in *. set (w := X (Max (Bounds img))) in *.
  eapply sat_bind; [by apply sat_makeMatrix|]. intros ? ->.
  eapply (sat_bind False _ _ (λ st : grid * Z,
    dims st.1 h w ∧
    ∀ y x, 0 ≤ y < h → 0 ≤ x < w →
      cell st.1 y x = Some (luminance_at luminance img x y))).
  2: { intros [px curr] Hpx. by apply sat_ret. }
  eapply sat_mono.
  - apply (sat_for_lt False _ _ _ _ (λ y (st : grid * Z),
      dims st.1 h w ∧
      ∀ r c, 0 ≤ r < h → 0 ≤ c < w →
        cell st.1 r c =
          Some (if decide (r < y) then luminance_at luminance img c r
                else x00))).
    + split; [by apply dims_zeros|]. intros r c Hr Hc. simpl.
      rewrite cell_zeros by done. by rewrite decide_False by lia.
    + intros y st Hy Hst. eapply sat_mono.
      * apply (sat_for_lt False _ _ _ _ (λ x (st : grid * Z),
          dims st.1 h w ∧
          ∀ r c, 0 ≤ r < h → 0 ≤ c < w →
            cell st.1 r c =
              Some (if decide (r < y ∨ (r = y ∧ c < x))
                    then luminance_at luminance img c r else x00))).
        -- destruct Hst as [Hdims Hcell]. split; [done|].
           intros r c Hr Hc. rewrite Hcell by done. f_equal.
           apply decide_ext. lia.
        -- intros x [px curr] Hx [Hdims Hcell]. simpl in Hdims, Hcell.
           cbv beta iota. unfold luminance_at in *.
           destruct (RGBA (At img x y)) as [[[r g] b] a] eqn:Hrgba.
           destruct (store2_spec px h w y x (luminance r g b) Hdims)
             as (px' & -> & Hdims' & Hcell'); [lia | lia |].
           rewrite bind_lift_Return. apply sat_ret. split; [done|].
           simpl. intros r' c' Hr' Hc'. rewrite Hcell'.
           destruct (decide (r' = y ∧ c' = x)) as [[-> ->]|Hne].
           ++ rewrite decide_True by lia. by rewrite Hrgba.
           ++ rewrite Hcell by done. f_equal. apply decide_ext. lia.
      * intros st' [Hdims' Hcell']. split; [done|].
        intros r c Hr Hc. rewrite Hcell' by done. f_equal.
        apply decide_ext. lia.
  - intros st [Hdims Hcell]. split; [done|].
    intros y x Hy Hx. rewrite Hcell by done. by rewrite decide_True by lia.
Qed.

(** If some pixel of the bounds is not an index of the matrix, the loops of
    [getPixelData] end in an index panic. *)
Lemma run_in_getPixelData_fails luminance img y_f x_f :
  Y (Min (Bounds img)) ≤ y_f < Y (Max (Bounds img)) →
  X (Min (Bounds img)) ≤ x_f < X (Max (Bounds img)) →
  ¬ (0 ≤ y_f < Dy (Bounds img) ∧ 0 ≤ x_f < Dx (Bounds img)) →
  run_in (λ p, p = IndexOutOfRange) (getPixelData luminance img) (λ _, False).
Proof.
  intros Hy_f Hx_f Hbad. unfold getPixelData. cbv zeta.
  set (h := Dy (Bounds img)) in *. set (w := Dx (Bounds img)) in *.
  assert (0 ≤ h ∧ 0 ≤ w) as [Hh Hw] by (unfold h, w, Dy, Dx; lia).
  eapply run_in_bind; [by apply run_in_sat, sat_makeMatrix|]. intros ? ->.
  eapply (run_in_bind _ _ _ (λ _, False)); [|done].
  eapply run_in_mono.
  - apply (run_in_for_lt _ _ _ _ _ (λ y (st : grid * Z),
      y ≤ y_f ∧ dims st.1 h w)).
    + split; [lia | by apply dims_zeros].
    + intros y st Hy [Hle Hdims]. eapply run_in_mono.
      * apply (run_in_for_lt _ _ _ _ _ (λ x (st : grid * Z),
          dims st.1 h w ∧ (y = y_f → x ≤ x_f))).
        -- split; [done | lia].
        -- intros x [px curr] Hx [Hdims' Hle']. simpl in Hdims'.
           cbv beta iota. destruct (RGBA (At img x y)) as [[[r g] b] a].
           intros tr. unfold mbind, M_bind, lift.
           pose proof (store2_cases px h w y x (luminance r g b) Hdims')
             as Hstore.
           destruct (store2 px y x (luminance r g b)) as [px'|p]; simpl.
           ++ destruct Hstore as (Hin & Hdims'' & _). split; [done|].
              intros ->. specialize (Hle' eq_refl).
              destruct (decide (x = x_f)) as [->|]; [done | lia].
           ++ by destruct Hstore.
      * intros st' [Hdims' Hle']. split; [lia | done].
  - intros st [Hle _]. lia.
Qed.

Lemma getPixelData_fails luminance img tr :
  Y (Min (Bounds img)) < Y (Max (Bounds img)) →
  X (Min (Bounds img)) < X (Max (Bounds img)) →
  Y (Min (Bounds img)) ≠ 0 ∨ X (Min (Bounds img)) ≠ 0 →
  getPixelData luminance img tr = (Panic IndexOutOfRange, tr).
Proof.
  intros HY HX Hne.
  assert (∃ y_f x_f,
            Y (Min (Bounds img)) ≤ y_f < Y (Max (Bounds img)) ∧
            X (Min (Bounds img)) ≤ x_f < X (Max (Bounds img)) ∧
            ¬ (0 ≤ y_f < Dy (Bounds img) ∧ 0 ≤ x_f < Dx (Bounds img)))
    as (y_f & x_f & Hy_f & Hx_f & Hbad).
  { unfold Dy, Dx.
    destruct (decide (Y (Min (Bounds img)) < 0));
      [exists (Y (Min (Bounds img))), (X (Min (Bounds img))); lia|].
    destruct (decide (X (Min (Bounds img)) < 0));
      [exists (Y (Min (Bounds img))), (X (Min (Bounds img))); lia|].
    exists (Y (Max (Bounds img)) - 1), (X (Max (Bounds img)) - 1). lia. }
  pose proof (run_in_getPixelData_fails luminance img y_f x_f Hy_f Hx_f Hbad tr)
    as Hrun.
  pose proof (silent_snd _ tr (silent_getPixelData luminance img)) as Htr.
  destruct (getPixelData luminance img tr) as [[px|p] tr']; simpl in *;
    [done | by subst].
Qed.

Lemma getPixelData_run luminance img tr :
  X (Min (Bounds img)) = 0 → Y (Min (Bounds img)) = 0 →
  0 ≤ X (Max (Bounds img)) → 0 ≤ Y (Max (Bounds img)) →
  ∃ pixels,
    getPixelData luminance img tr = (Return pixels, tr) ∧
    dims pixels (Dy (Bounds img)) (Dx (Bounds img)) ∧
    ∀ y x, 0 ≤ y < Dy (Bounds img) → 0 ≤ x < Dx (Bounds img) →
      cell pixels y x = Some (luminance_at luminance img x y).
Proof.
  intros HX HY HmaxX HmaxY.
  apply silent_returns;
    [by apply sat_getPixelData | apply silent_getPixelData].
Qed.

(** [filter] returns a matrix of the dimensions of the image for every number
    of threads between 1 and the height. *)
Lemma filter_returns height width data threads tr :
  1 ≤ threads ≤ height → 0 ≤ width →
  (∀ k l, region 0 height 0 width k l → ∃ b, data k l = Return b) →
  ∃ g tr', filter height width data threads tr = (Return g, tr') ∧
           dims g height width.
Proof.
  intros Ht Hw Hdata. destruct (decide (threads = 1)) as [->|].
  - destruct (medianFilter_returns 0 height 0 width data tr)
      as (g & tr' & Hrun & Hdims & _); [lia | lia | done |].
    rewrite !Z.sub_0_r in Hdims. by exists g, tr'.
  - destruct (filter_banded height width data threads tr)
      as (g & tr' & Hrun & Hdims & _); [lia | lia | done |].
    by exists g, tr'.
Qed.

Lemma index_out_of_range {A} (l : list A) i :
  ¬ (0 ≤ i < len l) → index l i = Panic IndexOutOfRange.
Proof.
  intros Hout. unfold index. destruct (decide (0 ≤ i)); [|done].
  rewrite lookup_ge_None_2; [done|]. unfold len in *. lia.
Qed.

Lemma makeImmutableMatrix_out_of_range matrix height width y x :
  dims matrix height width → ¬ (0 ≤ y < height ∧ 0 ≤ x < width) →
  makeImmutableMatrix matrix y x = Panic IndexOutOfRange.
Proof.
  intros [Hlen Hrows] Hout. unfold makeImmutableMatrix.
  destruct (decide (0 ≤ y < height)) as [Hy|Hy].
  - destruct (lookup_lt_is_Some_2 matrix (Z.to_nat y)) as [row Hrow];
      [unfold len in *; lia|].
    pose proof (Forall_lookup_1 _ _ _ _ Hrows Hrow) as Hw. simpl in Hw.
    rewrite (index_Return matrix y row) by (lia || done). simpl.
    apply index_out_of_range. lia.
  - by rewrite index_out_of_range by lia.
Qed.

Lemma join_rows_cell (g : grid) height width y x :
  dims g height width → 0 ≤ y < height → 0 ≤ x < width →
  len (mjoin g) = height * width ∧
  mjoin g !! Z.to_nat (y * width + x) = cell g y x.
Proof.
  intros [Hlen Hrows] Hy Hx. unfold len in *.
  assert (Forall (λ row : list byte, length row = Z.to_nat width) g) as Hrows'.
  { eapply Forall_impl; [exact Hrows|]. intros row Hrow. simpl in Hrow. lia. }
  split.
  - rewrite (length_join_rows g (Z.to_nat width) Hrows'). nia.
  - unfold cell. rewrite decide_True by lia.
    rewrite <-(lookup_join_rows g (Z.to_nat width)) by (done || lia).
    f_equal. rewrite Z2Nat.inj_add, Z2Nat.inj_mul by nia. done.
Qed.

(** ** The luminance in float64 *)





(** The three weights of line 79 as float64 values: each is the float64
    nearest to its decimal (off by at most half a unit in the last place of
    a 53-bit mantissa). *)
#[warnings="-inexact-float"]
Lemma weights_nearest :
  (Prim2SF 0.299 = S754_finite false 0x1322d0e5604189 (-54) ∧
   Z.abs (1000 * 0x1322d0e5604189 - 299 * 2 ^ 54) ≤ 500) ∧
  (Prim2SF 0.587 = S754_finite false 0x12c8b439581062 (-53) ∧
   Z.abs (1000 * 0x12c8b439581062 - 587 * 2 ^ 53) ≤ 500) ∧
  (Prim2SF 0.114 = S754_finite false 0x1d2f1a9fbe76c9 (-56) ∧
   Z.abs (1000 * 0x1d2f1a9fbe76c9 - 114 * 2 ^ 56) ≤ 500).
Proof.
  repeat split; try (vm_compute; reflexivity);
    apply Z.leb_le; vm_compute; reflexivity.
Qed.










(** ** Further properties: the theorems *)

(** X1.  [makeMatrix] returns the zero matrix of the given dimensions, without
    any observable action; it panics when the height is negative, and when the
    width is negative and there is a row to make.  With height 0 it returns
    the matrix without rows whatever the width. *)
Theorem X1_makeMatrix_outcome height width tr :
  makeMatrix height width tr =
    (if decide (height < 0 ∨ (0 < height ∧ width < 0))
     then Panic MakesliceLenOutOfRange else Return (zeros height width), tr) ∧
  zeros 0 width = [] ∧
  (0 ≤ height → 0 ≤ width →
   dims (zeros height width) height width ∧
   ∀ r c, 0 ≤ r < height → 0 ≤ c < width →
     cell (zeros height width) r c = Some x00).
Proof.
  split; [apply makeMatrix_cases|]. split; [done|].
  intros Hh Hw. split; [by apply dims_zeros|].
  intros r c Hr Hc. by apply cell_zeros.
Qed.

Lemma X1_makeMatrix_outcome_witness :
  (0 ≤ 3 ∧ 0 ≤ 4) ∧
  makeMatrix 3 4 [] = (Return (zeros 3 4), []) ∧
  dims (zeros 3 4) 3 4.
Proof.
  split; [lia|].
  destruct (X1_makeMatrix_outcome 3 4 []) as (Hrun & _ & Hzeros).
  split; [exact Hrun|]. apply Hzeros; lia.
Defined.





(** X4.  The value the kernel writes at a filtered coordinate is one of the
    25 samples of its window, unchanged by the conversions; at least 14 of the
    25 samples are below or equal to it and at least 12 are above or equal to
    it. *)
Theorem X4_kernel_value_rank startY endY startX endX data tr y x :
  (∀ k l, region startY endY startX endX k l → ∃ b, data k l = Return b) →
  interior startY endY startX endX y x →
  ∃ g tr' b,
    medianFilter startY endY startX endX data tr = (Return g, tr') ∧
    cell g (y - startY) (x - startX) = Some b ∧
    (∃ k l, y - 2 ≤ k ≤ y + 2 ∧ x - 2 ≤ l ≤ x + 2 ∧ data k l = Return b) ∧
    (14 ≤ count (λ z, Z.leb z (int b)) (window data y x))%nat ∧
    (12 ≤ count (λ z, Z.leb (int b) z) (window data y x))%nat.
Proof.
  intros Hdata Hint. pose proof Hint as [Hy Hx].
  destruct (medianFilter_returns startY endY startX endX data tr)
    as (g & tr' & Hrun & Hdims & Hcell); [lia | lia | done |].
  specialize (Hcell (y - startY) (x - startX) ltac:(lia) ltac:(lia)).
  replace (startY + (y - startY)) with y in Hcell by lia.
  replace (startX + (x - startX)) with x in Hcell by lia.
  rewrite decide_True in Hcell by done. unfold filtered in Hcell.
  destruct (lookup_lt_is_Some_2 (sort_Ints (window data y x)) 13) as [m Hm];
    [rewrite length_sort_Ints, length_window; lia|].
  rewrite Hm in Hcell. simpl in Hcell.
  assert (m ∈ window data y x) as Hin.
  { rewrite <-(sort_Ints_perm (window data y x)).
    by apply list_elem_of_lookup_2 with 13%nat. }
  destruct (elem_of_window _ _ _ _ Hin) as (k & l & Hk & Hl & ->).
  destruct (Hdata k l) as [b Hb]; [unfold region; lia|].
  assert (sample data k l = b) as Hs by (unfold sample; by rewrite Hb).
  rewrite Hs, uint8_int in Hcell. rewrite Hs in Hm.
  exists g, tr', b. split; [done|]. split; [done|].
  split; [by exists k, l|].
  destruct (sorted_rank _ _ _ (sort_Ints_sorted (window data y x)) Hm)
    as [Hle Hge].
  rewrite length_sort_Ints, length_window in Hge.
  rewrite (count_Permutation _ _ _ (sort_Ints_perm (window data y x))) in Hle.
  rewrite (count_Permutation _ _ _ (sort_Ints_perm (window data y x))) in Hge.
  split; lia.
Qed.

Lemma X4_kernel_value_rank_witness :
  interior 0 5 0 5 2 2 ∧
  ∃ g tr' b,
    medianFilter 0 5 0 5 (makeImmutableMatrix ramp) [] = (Return g, tr') ∧
    cell g (2 - 0) (2 - 0) = Some b ∧
    (∃ k l, 2 - 2 ≤ k ≤ 2 + 2 ∧ 2 - 2 ≤ l ≤ 2 + 2 ∧
            makeImmutableMatrix ramp k l = Return b) ∧
    (14 ≤ count (λ z, Z.leb z (int b))
            (window (makeImmutableMatrix ramp) 2 2))%nat ∧
    (12 ≤ count (λ z, Z.leb (int b) z)
            (window (makeImmutableMatrix ramp) 2 2))%nat.
Proof.
  assert (interior 0 5 0 5 2 2) as Hint by (unfold interior; lia).
  split; [done|].
  apply (X4_kernel_value_rank 0 5 0 5 (makeImmutableMatrix ramp) [] 2 2);
    [apply ramp_Return | done].
Defined.





(** X7.  On a region of at least five rows and five columns every coordinate
    is read: if the getter panics at some coordinate of the region (a region
    that is not inside the backing matrix, say), the kernel does not return a
    grid, it panics. *)
Theorem X7_kernel_fails_fast startY endY startX endX data tr k l p :
  5 ≤ endY - startY → 5 ≤ endX - startX →
  region startY endY startX endX k l → data k l = Panic p →
  ∃ p' tr', medianFilter startY endY startX endX data tr = (Panic p', tr').
Proof.
  intros Hh Hw Hkl Hp.
  destruct (medianFilter startY endY startX endX data tr) as [[g|p'] tr']
    eqn:Hrun; [|eauto].
  destruct (logs_medianFilter startY endY startX endX data tr g tr' Hrun)
    as [_ Hall].
  rewrite Forall_forall in Hall.
  destruct (Hall (Read k l) (kernel_reads_cover _ _ _ _ k l Hh Hw Hkl) k l)
    as [b Hb]; [done|]. congruence.
Qed.

Lemma X7_kernel_fails_fast_witness :
  (5 ≤ 6 - 0 ∧ 5 ≤ 5 - 0 ∧ region 0 6 0 5 5 0 ∧
   makeImmutableMatrix ramp 5 0 = Panic IndexOutOfRange) ∧
  ∃ p' tr',
    medianFilter 0 6 0 5 (makeImmutableMatrix ramp) [] = (Panic p', tr').
Proof.
  assert (region 0 6 0 5 5 0) as Hr by (unfold region; lia).
  assert (makeImmutableMatrix ramp 5 0 = Panic IndexOutOfRange) as Hp
    by (by vm_compute).
  split; [repeat split; (done || lia)|].
  apply (X7_kernel_fails_fast 0 6 0 5 (makeImmutableMatrix ramp) [] 5 0
           IndexOutOfRange); (done || lia).
Defined.



(** X9.  With a number of threads between 2 and the height, on a getter that
    returns on the whole image, [filter] returns a matrix of the dimensions of
    the image in which each band is the result of the kernel on that band: a
    cell at least 2 rows away from both ends of its band and 2 columns away
    from both sides of the image holds the filtered value, every other cell
    is 0. *)
Theorem X9_filter_bands height width data threads tr :
  2 ≤ threads ≤ height → 0 ≤ width →
  (∀ k l, region 0 height 0 width k l → ∃ b, data k l = Return b) →
  ∃ g tr',
    filter height width data threads tr = (Return g, tr') ∧
    dims g height width ∧
    ∀ i b y x, bands height threads !! i = Some b →
      b.1 ≤ y < b.2 → 0 ≤ x < width →
      cell g y x =
        Some (if decide (interior b.1 b.2 0 width y x)
              then filtered data y x else x00).
Proof. apply filter_banded. Qed.

Lemma X9_filter_bands_witness :
  (2 ≤ 2 ≤ 10 ∧ 0 ≤ 10) ∧
  ∃ g tr',
    filter 10 10 (makeImmutableMatrix flat100) 2 [] = (Return g, tr') ∧
    dims g 10 10 ∧
    ∀ i b y x, bands 10 2 !! i = Some b →
      b.1 ≤ y < b.2 → 0 ≤ x < 10 →
      cell g y x =
        Some (if decide (interior b.1 b.2 0 10 y x)
              then filtered (makeImmutableMatrix flat100) y x else x00).
Proof.
  split; [lia|].
  apply (X9_filter_bands 10 10 (makeImmutableMatrix flat100) 2 []);
    [lia | lia |].
  intros k l [Hk Hl]. exists x64. apply flat_Return; lia.
Defined.

(** X10.  The number of threads changes the output near the seams only: with
    a number of threads between 2 and the height, the output equals the
    output with one thread on every row at least 2 rows away from both ends
    of its band, and it is 0 on the first two and the last two rows of every
    band. *)
Theorem X10_filter_seams height width data threads tr :
  2 ≤ threads ≤ height → 0 ≤ width →
  (∀ k l, region 0 height 0 width k l → ∃ b, data k l = Return b) →
  ∃ g1 g,
    fst (filter height width data 1 tr) = Return g1 ∧
    fst (filter height width data threads tr) = Return g ∧
    ∀ i b y x, bands height threads !! i = Some b →
      b.1 ≤ y < b.2 → 0 ≤ x < width →
      (b.1 + 2 ≤ y < b.2 - 2 → cell g y x = cell g1 y x) ∧
      (y < b.1 + 2 ∨ b.2 - 2 ≤ y → cell g y x = Some x00).
Proof.
  intros Ht Hw Hdata.
  destruct (filter_banded height width data threads tr Ht Hw Hdata)
    as (g & tr' & Hrun & _ & Hcell).
  destruct (medianFilter_returns 0 height 0 width data tr)
    as (g1 & tr1 & Hrun1 & _ & Hcell1); [lia | lia | done |].
  rewrite !Z.sub_0_r in Hcell1.
  exists g1, g. split.
  { change (fst (medianFilter 0 height 0 width data tr) = Return g1).
    by rewrite Hrun1. }
  split; [by rewrite Hrun|].
  intros i b y x Hb Hy Hx. rewrite (Hcell i b y x Hb Hy Hx).
  assert (1 ≤ threads ≤ height) as Ht1 by lia.
  destruct (band_bounds _ _ _ _ Ht1 Hb) as (_ & _ & _ & ? & ? & ?).
  split.
  - intros Hin. specialize (Hcell1 y x ltac:(lia) ltac:(lia)).
    rewrite !Z.add_0_l in Hcell1. rewrite Hcell1. f_equal.
    apply decide_ext. unfold interior. lia.
  - intros Hout. by rewrite decide_False by (unfold interior; lia).
Qed.

Lemma X10_filter_seams_witness :
  (2 ≤ 2 ≤ 10 ∧ 0 ≤ 10) ∧
  ∃ g1 g,
    fst (filter 10 10 (makeImmutableMatrix flat100) 1 []) = Return g1 ∧
    fst (filter 10 10 (makeImmutableMatrix flat100) 2 []) = Return g ∧
    ∀ i b y x, bands 10 2 !! i = Some b →
      b.1 ≤ y < b.2 → 0 ≤ x < 10 →
      (b.1 + 2 ≤ y < b.2 - 2 → cell g y x = cell g1 y x) ∧
      (y < b.1 + 2 ∨ b.2 - 2 ≤ y → cell g y x = Some x00).
Proof.
  split; [lia|].
  apply (X10_filter_seams 10 10 (makeImmutableMatrix flat100) 2 []);
    [lia | lia |].
  intros k l [Hk Hl]. exists x64. apply flat_Return; lia.
Defined.

(** X11.  [flattenImage] panics with an index out of range on a matrix
    without rows (it reads the length of row 0); on any other matrix, ragged
    or not, it returns the rows one after the other, without any observable
    action. *)
Theorem X11_flattenImage_outcome image tr :
  flattenImage image tr =
    (match image with
     | [] => Panic IndexOutOfRange
     | _ :: _ => Return (mjoin image)
     end, tr).
Proof. apply flattenImage_run. Qed.

(** X12.  On a matrix of [height >= 1] rows of [width] samples,
    [flattenImage] returns [height * width] samples in row-major order: the
    sample [(y, x)] of the matrix is the element [y * width + x]. *)
Theorem X12_flattenImage_row_major image height width tr :
  dims image height width → 1 ≤ height →
  ∃ pix,
    flattenImage image tr = (Return pix, tr) ∧
    len pix = height * width ∧
    ∀ y x, 0 ≤ y < height → 0 ≤ x < width →
      pix !! Z.to_nat (y * width + x) = cell image y x.
Proof.
  intros Hdims Hh. exists (mjoin image). split.
  - rewrite flattenImage_run. destruct image; [|done].
    destruct Hdims as [Hlen _]. unfold len in Hlen. simpl in Hlen. lia.
  - destruct (decide (0 < width)) as [Hw|Hw].
    + split; [apply (join_rows_cell image height width 0 0 Hdims); lia|].
      intros y x Hy Hx. by apply (join_rows_cell image height width y x).
    + split; [|intros; lia].
      destruct Hdims as [Hlen Hrows]. unfold len in *.
      assert (width = 0) as ->.
      { destruct image as [|row rest]; [simpl in Hlen; lia|].
        apply Forall_cons in Hrows as [Hrow _]. lia. }
      assert (Forall (λ row : list byte, length row = 0%nat) image) as Hrows'.
      { eapply Forall_impl; [exact Hrows|]. intros row Hrow. simpl in Hrow.
        lia. }
      rewrite (length_join_rows image 0 Hrows'). lia.
Qed.

Lemma X12_flattenImage_row_major_witness :
  (dims ramp 5 5 ∧ 1 ≤ 5) ∧
  ∃ pix,
    flattenImage ramp [] = (Return pix, []) ∧
    len pix = 5 * 5 ∧
    ∀ y x, 0 ≤ y < 5 → 0 ≤ x < 5 →
      pix !! Z.to_nat (y * 5 + x) = cell ramp y x.
Proof.
  split; [split; [apply dims_ramp | lia]|].
  apply (X12_flattenImage_row_major ramp 5 5 []); [apply dims_ramp | lia].
Defined.

(** X13.  On an image whose bounds start at the origin, [getPixelData]
    returns, without any observable action, a matrix with one row for each
    [y] and one column for each [x] of the bounds, whose cell [(y, x)] is the
    luminance of the colour [At(x, y)], the fourth channel being ignored; the
    getter made from it returns that sample at every pixel. *)
Theorem X13_getPixelData_origin luminance img tr :
  X (Min (Bounds img)) = 0 → Y (Min (Bounds img)) = 0 →
  0 ≤ X (Max (Bounds img)) → 0 ≤ Y (Max (Bounds img)) →
  ∃ pixels,
    getPixelData luminance img tr = (Return pixels, tr) ∧
    dims pixels (Y (Max (Bounds img))) (X (Max (Bounds img))) ∧
    ∀ y x, 0 ≤ y < Y (Max (Bounds img)) → 0 ≤ x < X (Max (Bounds img)) →
      cell pixels y x = Some (luminance_at luminance img x y) ∧
      (∀ r g b a, RGBA (At img x y) = (r, g, b, a) →
         makeImmutableMatrix pixels y x = Return (luminance r g b)).
Proof.
  intros HX HY HmaxX HmaxY.
  destruct (getPixelData_run luminance img tr HX HY HmaxX HmaxY)
    as (pixels & Hrun & Hdims & Hcell).
  unfold Dy, Dx in Hdims, Hcell. rewrite HX, HY, !Z.sub_0_r in Hdims, Hcell.
  exists pixels. split; [done|]. split; [done|].
  intros y x Hy Hx. split; [by apply Hcell|].
  intros r g b a Hrgba.
  destruct (makeImmutableMatrix_Return pixels _ _ y x Hdims Hy Hx)
    as (v & -> & Hv).
  rewrite Hcell in Hv by done. injection Hv as <-.
  unfold luminance_at. by rewrite Hrgba.
Qed.

Lemma X13_getPixelData_origin_witness :
  (X (Min (Bounds (image_at 0 0))) = 0 ∧ Y (Min (Bounds (image_at 0 0))) = 0 ∧
   0 ≤ X (Max (Bounds (image_at 0 0))) ∧ 0 ≤ Y (Max (Bounds (image_at 0 0)))) ∧
  ∃ pixels,
    getPixelData red_channel (image_at 0 0) [] = (Return pixels, []) ∧
    dims pixels (Y (Max (Bounds (image_at 0 0))))
      (X (Max (Bounds (image_at 0 0)))).
Proof.
  split; [simpl; lia|].
  destruct (X13_getPixelData_origin red_channel (image_at 0 0) [])
    as (pixels & Hrun & Hdims & _); [done | done | simpl; lia | simpl; lia |].
  by exists pixels.
Defined.

(** X14.  [getPixelData] indexes its matrix by the coordinates of the image,
    not by their offset in the bounds: on an image with a pixel and with
    bounds that do not start at the origin, it panics with an index out of
    range. *)
Theorem X14_getPixelData_off_origin luminance img tr :
  Y (Min (Bounds img)) < Y (Max (Bounds img)) →
  X (Min (Bounds img)) < X (Max (Bounds img)) →
  Y (Min (Bounds img)) ≠ 0 ∨ X (Min (Bounds img)) ≠ 0 →
  getPixelData luminance img tr = (Panic IndexOutOfRange, tr).
Proof. apply getPixelData_fails. Qed.

Lemma X14_getPixelData_off_origin_witness :
  (Y (Min (Bounds (image_at 1 0))) < Y (Max (Bounds (image_at 1 0))) ∧
   X (Min (Bounds (image_at 1 0))) < X (Max (Bounds (image_at 1 0))) ∧
   (Y (Min (Bounds (image_at 1 0))) ≠ 0 ∨ X (Min (Bounds (image_at 1 0))) ≠ 0)) ∧
  getPixelData red_channel (image_at 1 0) [] = (Panic IndexOutOfRange, []).
Proof.
  split; [simpl; lia|].
  apply (X14_getPixelData_off_origin red_channel (image_at 1 0) []);
    simpl; lia.
Defined.

(** X15.  The getter of [makeImmutableMatrix] on a matrix of [height] rows of
    [width] samples returns the sample of the matrix at every coordinate
    inside, and panics with an index out of range at every coordinate
    outside, negative ones included. *)
Theorem X15_getter_bounds matrix height width y x :
  dims matrix height width →
  (0 ≤ y < height ∧ 0 ≤ x < width →
   ∃ b, cell matrix y x = Some b ∧ makeImmutableMatrix matrix y x = Return b) ∧
  (¬ (0 ≤ y < height ∧ 0 ≤ x < width) →
   cell matrix y x = None ∧
   makeImmutableMatrix matrix y x = Panic IndexOutOfRange).
Proof.
  intros Hdims. split.
  - intros [Hy Hx].
    destruct (makeImmutableMatrix_Return matrix height width y x Hdims Hy Hx)
      as (b & Hb & Hc). eauto.
  - intros Hout.
    split; [|by apply (makeImmutableMatrix_out_of_range _ height width)].
    destruct (cell matrix y x) as [b|] eqn:Hb; [|done].
    destruct Hdims as [Hlen Hrows]. unfold cell in Hb.
    destruct (decide (0 ≤ y ∧ 0 ≤ x)); [|done].
    destruct (matrix !! Z.to_nat y) as [row|] eqn:Hrow; [|done].
    simpl in Hb. pose proof (Forall_lookup_1 _ _ _ _ Hrows Hrow) as Hw.
    simpl in Hw. apply lookup_lt_Some in Hrow, Hb. unfold len in *. lia.
Qed.

Lemma X15_getter_bounds_witness :
  dims ramp 5 5 ∧
  (∃ b, cell ramp 4 0 = Some b ∧ makeImmutableMatrix ramp 4 0 = Return b) ∧
  makeImmutableMatrix ramp 4 (-1) = Panic IndexOutOfRange ∧
  makeImmutableMatrix ramp 5 0 = Panic IndexOutOfRange.
Proof.
  split; [apply dims_ramp|]. split; [|split].
  - apply (X15_getter_bounds ramp 5 5 4 0 dims_ramp). lia.
  - apply (X15_getter_bounds ramp 5 5 4 (-1) dims_ramp). lia.
  - apply (X15_getter_bounds ramp 5 5 5 0 dims_ramp). lia.
Defined.

(** X16.  From the decoded image to the pixels of the output: on an image
    with bounds at the origin, at least one row, and a number of threads
    between 1 and the height, [filter] hands the encoder [height * width]
    samples, the matrix returned by the coordinator on the luminance getter
    in row-major order. *)
Theorem X16_filter_image_pixels luminance img threads tr :
  X (Min (Bounds img)) = 0 → Y (Min (Bounds img)) = 0 →
  0 ≤ X (Max (Bounds img)) → 1 ≤ threads ≤ Y (Max (Bounds img)) →
  ∃ pixels g tr' pix,
    getPixelData luminance img tr = (Return pixels, tr) ∧
    filter (Dy (Bounds img)) (Dx (Bounds img)) (makeImmutableMatrix pixels)
      threads tr = (Return g, tr') ∧
    filter_image luminance img threads tr = (Return pix, tr') ∧
    len pix = Dy (Bounds img) * Dx (Bounds img) ∧
    ∀ y x, 0 ≤ y < Dy (Bounds img) → 0 ≤ x < Dx (Bounds img) →
      pix !! Z.to_nat (y * Dx (Bounds img) + x) = cell g y x.
Proof.
  intros HX HY HmaxX Ht.
  destruct (getPixelData_run luminance img tr HX HY HmaxX ltac:(lia))
    as (pixels & Hpix & Hdims & _).
  assert (Dy (Bounds img) = Y (Max (Bounds img))) as Hh
    by (unfold Dy; lia).
  assert (Dx (Bounds img) = X (Max (Bounds img))) as Hw
    by (unfold Dx; lia).
  set (h := Dy (Bounds img)) in *. set (w := Dx (Bounds img)) in *.
  destruct (filter_returns h w (makeImmutableMatrix pixels) threads tr)
    as (g & tr' & Hrun & Hdimsg); [lia | lia | |].
  { intros k l [Hk Hl].
    destruct (makeImmutableMatrix_Return pixels h w k l Hdims)
      as (b & Hb & _); [lia | lia | eauto]. }
  exists pixels, g, tr', (mjoin g).
  split; [done|]. split; [done|]. split.
  - unfold filter_image. cbv zeta. fold h w.
    erewrite bind_run by exact Hpix. erewrite bind_run by exact Hrun.
    rewrite flattenImage_run. destruct g; [|done].
    destruct Hdimsg as [Hlen _]. unfold len in Hlen. simpl in Hlen. lia.
  - destruct (decide (0 < w)) as [Hpos|Hzero].
    + split; [apply (join_rows_cell g h w 0 0 Hdimsg); lia|].
      intros y x Hy Hx. by apply (join_rows_cell g h w y x).
    + split; [|intros; lia]. assert (w = 0) as -> by lia.
      destruct Hdimsg as [Hlen Hrows]. unfold len in *.
      assert (Forall (λ row : list byte, length row = 0%nat) g) as Hrows'.
      { eapply Forall_impl; [exact Hrows|]. intros row Hrow. simpl in Hrow.
        lia. }
      rewrite (length_join_rows g 0 Hrows'). lia.
Qed.

Lemma X16_filter_image_pixels_witness :
  (X (Min (Bounds (image_at 0 0))) = 0 ∧ Y (Min (Bounds (image_at 0 0))) = 0 ∧
   0 ≤ X (Max (Bounds (image_at 0 0))) ∧
   1 ≤ 2 ≤ Y (Max (Bounds (image_at 0 0)))) ∧
  ∃ pix tr',
    filter_image red_channel (image_at 0 0) 2 [] = (Return pix, tr') ∧
    len pix = Dy (Bounds (image_at 0 0)) * Dx (Bounds (image_at 0 0)).
Proof.
  split; [simpl; lia|].
  destruct (X16_filter_image_pixels red_channel (image_at 0 0) 2 [])
    as (pixels & g & tr' & pix & _ & _ & Hrun & Hlen & _);
    [done | done | simpl; lia | simpl; lia |].
  by exists pix, tr'.
Defined.

(** X17.  An image without rows makes [filter] panic whatever the number of
    threads: with a positive number of threads the filtered matrix has no
    row and [flattenImage] panics with an index out of range; with 0 or a
    negative number the coordinator panics before. *)
Theorem X17_filter_image_no_rows luminance img threads tr :
  X (Min (Bounds img)) = 0 → Y (Min (Bounds img)) = 0 →
  0 ≤ X (Max (Bounds img)) → Y (Max (Bounds img)) = 0 →
  ∃ tr',
    filter_image luminance img threads tr =
      (Panic (if decide (0 < threads) then IndexOutOfRange
              else if decide (threads = 0) then IntegerDivideByZero
              else MakesliceLenOutOfRange), tr').
Proof.
  intros HX HY HmaxX HmaxY.
  destruct (getPixelData_run luminance img tr HX HY HmaxX ltac:(lia))
    as (pixels & Hpix & _).
  unfold filter_image. cbv zeta. erewrite bind_run by exact Hpix.
  assert (Dy (Bounds img) = 0) as -> by (unfold Dy; lia).
  assert (0 ≤ Dx (Bounds img)) as Hw by (unfold Dx; lia).
  set (w := Dx (Bounds img)) in *.
  destruct (decide (0 < threads)) as [Hpos|Hneg].
  - assert (∃ tr', filter 0 w (makeImmutableMatrix pixels) threads tr
                   = (Return [], tr')) as [tr' Hrun].
    { destruct (decide (threads = 1)) as [->|].
      - exists tr.
        change (medianFilter 0 0 0 w (makeImmutableMatrix pixels) tr
                = (Return [], tr)).
        by rewrite medianFilter_degenerate by lia.
      - eexists. rewrite filter_more_threads_than_rows by lia.
        by rewrite medianFilter_degenerate by lia. }
    exists tr'. erewrite bind_run by exact Hrun. done.
  - exists tr. unfold mbind, M_bind.
    by rewrite filter_nonpositive by lia.
Qed.

Lemma X17_filter_image_no_rows_witness :
  (X (Min (Bounds no_rows)) = 0 ∧ Y (Min (Bounds no_rows)) = 0 ∧
   0 ≤ X (Max (Bounds no_rows)) ∧ Y (Max (Bounds no_rows)) = 0) ∧
  ∃ tr', filter_image red_channel no_rows 3 [] = (Panic IndexOutOfRange, tr').
Proof.
  split; [simpl; lia|].
  apply (X17_filter_image_no_rows red_channel no_rows 3 []); simpl; lia.
Defined.
